(** * College Media: the job runner and the dependency guard of the server

    A shallow embedding of

    - [JobRunner] (constructor, [run], [_runWithTimeout], [_backoff],
      [_moveToDeadLetterQueue]), the retry / backoff / timeout executor;
    - [retryRequest], [isCircuitOpen], [recordFailure], [recordSuccess]
      and [req.callDependency] of the server bootstrap, both one call at a
      time and with calls of several requests in flight together;
    - the versioning middleware, [connectDB], [startServer] and the
      shutdown handler of the bootstrap, and the like and story state of
      the App component.

    An asynchronous function is modelled as a function from a world
    (clock, counters, event log) to a completion (a value, a thrown value,
    or none) and a new world.  An [await] is the point where the clock
    advances.  Millisecond quantities and counters are integers ([Z]);
    products are rounded as the doubles of JavaScript are, and a timer
    runs after the delay Node gives it: the requested one between 1 and
    2147483647 ms, and 1 ms for any other. *)

From Stdlib Require Import ZArith List String Bool Lia.
From Equations Require Import Equations.
Import ListNotations.

Set Warnings "-register-all".
Open Scope string_scope.
Open Scope list_scope.
Open Scope Z_scope.

(** ** JavaScript values, thrown values, numbers and timers *)

Module Js.

(** The values that flow through the code as payloads, results and
    fallbacks. *)
Inductive jsval : Type :=
| VUndefined
| VNull
| VBool (b : bool)
| VNum (n : Z)
| VStr (s : string)
| VObj (fields : list (string * jsval)).

(** The object literal [{}]. *)
Definition empty_object : jsval := VObj [].

(** A default parameter [x = d] takes [d] exactly when the argument is
    [undefined] (absent). *)
Definition default_param (arg d : jsval) : jsval :=
  match arg with
  | VUndefined => d
  | _ => arg
  end.

(** A destructured option with a default, [{ k = d }]: [None] is an absent
    (undefined) property. *)
Definition default_field (o : option Z) (d : Z) : Z :=
  match o with
  | Some v => v
  | None => d
  end.

(** An [Error] object, with the [message] the code reads. *)
Record error : Type := Error { message : string }.

(** What a [throw] or a rejected promise carries: an [Error] object, or
    any other value ([Promise.reject()] rejects with [undefined]). *)
Inductive thrown : Type :=
| ErrorObject (e : error)
| Value (v : jsval).
Coercion ErrorObject : error >-> thrown.

(** [undefined] and [null] have no properties: reading one throws. *)
Definition nullish (x : thrown) : bool :=
  match x with
  | Value VUndefined => true
  | Value VNull => true
  | _ => false
  end.

(** The [TypeError] of [x.message] for [x] undefined or null. *)
Definition cannot_read_message (x : thrown) : error :=
  match x with
  | Value VNull => Error "Cannot read properties of null (reading 'message')"
  | _ => Error "Cannot read properties of undefined (reading 'message')"
  end.

(** The first field of an object literal with the given name, or
    [undefined]. *)
Fixpoint member (key : string) (fields : list (string * jsval)) : jsval :=
  match fields with
  | [] => VUndefined
  | (k, v) :: rest => if String.eqb k key then v else member key rest
  end.

(** The value of [x.message] where [x] is neither undefined nor null:
    the message of an [Error], the field of an object, and [undefined] on
    a boolean, a number or a string. *)
Definition message_value (x : thrown) : jsval :=
  match x with
  | ErrorObject e => VStr (message e)
  | Value (VObj fields) => member "message" fields
  | Value _ => VUndefined
  end.

(** An integer rounded to the nearest double, ties to the even mantissa
    (magnitudes below the overflow threshold of doubles). *)
Definition round_double (x : Z) : Z :=
  let a := Z.abs x in
  if a <? 2 ^ 53 then x
  else
    let unit := 2 ^ (Z.log2 a - 52) in
    let q := a / unit in
    let rest := a mod unit in
    let q' := if 2 * rest <? unit then q
              else if unit <? 2 * rest then q + 1
              else if Z.even q then q else q + 1 in
    Z.sgn x * (q' * unit).

(** [a * b] on numbers: the product of two integer-valued doubles. *)
Definition times (a b : Z) : Z := round_double (a * b).

(** The delay after which Node runs a timer set with [setTimeout(f, d)]:
    [d] itself between 1 and 2147483647, and 1 for any other [d]. *)
Definition timer_delay (d : Z) : Z :=
  if (1 <=? d) && (d <=? 2147483647) then d else 1.

End Js.
Import Js.

(** ** Computations: state passing with exceptions *)

Module Eff.

(** How an awaited computation ends: with a value, with a thrown value of
    type [E], or not at all (an awaited promise that never settles). *)
Inductive completion (E A : Type) : Type :=
| Normal (a : A)
| Thrown (e : E)
| Stuck.
Arguments Normal {E A} a.
Arguments Thrown {E A} e.
Arguments Stuck {E A}.

(** A computation over worlds [W].  The world survives a throw: effects
    performed inside a [try] block are not undone by the [catch]. *)
Definition M (E W A : Type) : Type := W -> completion E A * W.

Definition ret {E W A} (a : A) : M E W A := fun w => (Normal a, w).

Definition throw {E W A} (e : E) : M E W A := fun w => (Thrown e, w).

Definition bind {E W A B} (c : M E W A) (k : A -> M E W B) : M E W B :=
  fun w =>
    match c w with
    | (Normal a, w') => k a w'
    | (Thrown e, w') => (Thrown e, w')
    | (Stuck, w') => (Stuck, w')
    end.

(** [try { c } catch (err) { h err }] *)
Definition try_catch {E W A} (c : M E W A) (h : E -> M E W A) : M E W A :=
  fun w =>
    match c w with
    | (Normal a, w') => (Normal a, w')
    | (Thrown e, w') => h e w'
    | (Stuck, w') => (Stuck, w')
    end.

(** [promise.finally(f)]: once the promise settles, [f] runs and the
    outcome is passed on unchanged (unless [f] itself throws). *)
Definition finally {E W A} (c : M E W A) (f : M E W unit) : M E W A :=
  fun w =>
    match c w with
    | (Stuck, w') => (Stuck, w')
    | (r, w') =>
        match f w' with
        | (Normal _, w'') => (r, w'')
        | (Thrown e, w'') => (Thrown e, w'')
        | (Stuck, w'') => (Stuck, w'')
        end
    end.

(** The value of a test together with the fact that it is its value, for
    branches whose termination depends on it. *)
Definition inspect {A} (a : A) : {b : A | a = b} := exist _ a eq_refl.

Definition modify {E W} (f : W -> W) : M E W unit := fun w => (Normal tt, f w).

Definition gets {E W A} (f : W -> A) : M E W A := fun w => (Normal (f w), w).

End Eff.
Import Eff.

Declare Scope eff_scope.
Delimit Scope eff_scope with eff.
Notation "x <- c ;; k" := (bind c (fun x => k))
  (at level 61, c at next level, right associativity) : eff_scope.
Notation "c ;; k" := (bind c (fun _ => k))
  (at level 61, right associativity) : eff_scope.
Open Scope eff_scope.

(** ** JobRunner *)

Module JobRunner.

(** What the promise returned by the handler does: it settles some
    milliseconds after the call, or never.  A promise is rejected with any
    value, [undefined] and [null] among them. *)
Inductive settlement : Type :=
| Fulfilled (v : jsval)
| Rejected (x : thrown).

Inductive promise : Type :=
| SettlesAfter (ms : Z) (s : settlement)
| NeverSettles.

(** One call [handler(payload)]: it throws before returning, or returns a
    promise (a plain value [v] is [SettlesAfter 0 (Fulfilled v)]). *)
Inductive behaviour : Type :=
| Throws (x : thrown)
| Returns (p : promise).

(** The handler is a caller-supplied function that may keep state of its
    own: its behaviour depends on how many times it was called before. *)
Definition handler_fn : Type := nat -> jsval -> behaviour.

Record t : Type := {
  jobName : string;
  handler : handler_fn;
  maxRetries : Z;
  backoffMs : Z;
  timeoutMs : Z
}.

(** The argument object of the constructor. *)
Record options : Type := {
  opt_jobName : string;
  opt_handler : handler_fn;
  opt_maxRetries : option Z;
  opt_backoffMs : option Z;
  opt_timeoutMs : option Z
}.

Definition constructor (o : options) : t :=
  {| jobName := opt_jobName o;
     handler := opt_handler o;
     maxRetries := default_field (opt_maxRetries o) 3;
     backoffMs := default_field (opt_backoffMs o) 2000;
     timeoutMs := default_field (opt_timeoutMs o) 5000 |}.

(** The lines written to the console; [error_message] and [reason] are
    the values of [error.message]. *)
Inductive logline : Type :=
| JobStart (job : string) (attempt : Z)
| JobSuccess (job : string) (attempt : Z)
| JobFailed (job : string) (attempt : Z) (error_message : jsval) (payload : jsval)
| JobRetry (job : string) (delay : Z)
| JobDeadLetter (job : string) (reason : jsval) (payload : jsval) (timestamp : Z).

(** What a run does to the outside, in order.  [TimerSet ms] and
    [Slept ms] carry the delay given to [setTimeout]; [Slept ms] stands
    for a timer that was awaited. *)
Inductive event : Type :=
| Log (l : logline)
| Invoked (payload : jsval)
| TimerSet (ms : Z)
| TimerCleared
| Slept (ms : Z).

Record world : Type := {
  now : Z;
  calls : nat;
  out : list event
}.

Definition emit (e : event) : M thrown world unit :=
  modify (fun w => {| now := now w; calls := calls w; out := out w ++ [e] |}).

Definition advance (ms : Z) : M thrown world unit :=
  modify (fun w => {| now := now w + ms; calls := calls w; out := out w |}).

(** [this.handler(payload)] *)
Definition call_handler (r : t) (payload : jsval) : M thrown world promise :=
  fun w =>
    let w' := {| now := now w; calls := S (calls w);
                 out := out w ++ [Invoked payload] |} in
    match handler r (calls w) payload with
    | Throws x => (Thrown x, w')
    | Returns p => (Normal p, w')
    end.

Definition timeout_error : error := Error "Job execution timed out".

(** [Promise.race([promise, timeoutPromise])]: the time it takes and how it
    settles.  The timer set with [timeoutMs] runs after
    [timer_delay timeoutMs]; a promise that settles no later wins, so a
    promise that is already settled wins against any timer. *)
Definition race (p : promise) (timeoutMs : Z) : Z * completion thrown jsval :=
  match p with
  | SettlesAfter ms s =>
      if ms <=? timer_delay timeoutMs then
        (ms, match s with
             | Fulfilled v => Normal v
             | Rejected x => Thrown x
             end)
      else (timer_delay timeoutMs, Thrown (ErrorObject timeout_error))
  | NeverSettles => (timer_delay timeoutMs, Thrown (ErrorObject timeout_error))
  end.

Definition _runWithTimeout (p : promise) (timeoutMs : Z) : M thrown world jsval :=
  emit (TimerSet timeoutMs) ;;
  finally
    (advance (fst (race p timeoutMs)) ;;
     fun w => (snd (race p timeoutMs), w))
    (emit TimerCleared).

(** [delay] is a product of numbers; the timer set with it runs after
    [timer_delay delay]. *)
Definition _backoff (r : t) (attempt : Z) : M thrown world unit :=
  let delay := times (backoffMs r) attempt in
  emit (Log (JobRetry (jobName r) delay)) ;;
  advance (timer_delay delay) ;;
  emit (Slept delay).

(** [error.message]: a [TypeError] is thrown when [error] is undefined or
    null. *)
Definition read_message (err : thrown) : M thrown world jsval :=
  if nullish err then throw (ErrorObject (cannot_read_message err))
  else ret (message_value err).

Definition _moveToDeadLetterQueue (r : t) (err : thrown) (payload : jsval)
  : M thrown world unit :=
  reason <- read_message err ;;
  timestamp <- gets now ;;
  emit (Log (JobDeadLetter (jobName r) reason payload timestamp)).

(** How one turn of the [while] loop ends: with [return] or by falling
    through to the next test of the guard. *)
Inductive flow : Type :=
| Return (v : jsval)
| Continue.

(** The body of the loop, for the value of [attempt] after [attempt++].
    The argument of [console.error] is built before the line is written:
    when [error.message] throws, nothing of the [catch] block has
    happened. *)
Definition loop_body (r : t) (payload : jsval) (attempt : Z) : M thrown world flow :=
  try_catch
    (emit (Log (JobStart (jobName r) attempt)) ;;
     p <- call_handler r payload ;;
     result <- _runWithTimeout p (timeoutMs r) ;;
     emit (Log (JobSuccess (jobName r) attempt)) ;;
     ret (Return result))
    (fun err =>
       error_message <- read_message err ;;
       emit (Log (JobFailed (jobName r) attempt error_message payload)) ;;
       if attempt >? maxRetries r then
         _moveToDeadLetterQueue r err payload ;;
         throw err
       else
         _backoff r attempt ;;
         ret Continue).

(** [while (attempt <= this.maxRetries) { attempt++; ... }]; leaving the
    loop by its guard, the function returns [undefined]. *)
Equations? run_loop (r : t) (payload : jsval) (attempt : Z) : M thrown world jsval
  by wf (Z.to_nat (maxRetries r + 1 - attempt)) lt :=
  run_loop r payload attempt with inspect (attempt <=? maxRetries r) := {
    | exist _ true _ =>
        f <- loop_body r payload (attempt + 1) ;;
        match f with
        | Return v => ret v
        | Continue => run_loop r payload (attempt + 1)
        end
    | exist _ false _ => ret VUndefined }.
Proof. apply Z.leb_le in e. lia. Qed.

(** [async run(payload = {})] *)
Definition run (r : t) (arg : jsval) : M thrown world jsval :=
  let payload := default_param arg empty_object in
  run_loop r payload 0.

(** *** Observations on a run *)

(** How one attempt ends: the handler's throw, or the outcome of the race
    between its promise and the timer. *)
Definition attempt_outcome (r : t) (b : behaviour) : completion thrown jsval :=
  match b with
  | Throws x => Thrown x
  | Returns p => snd (race p (timeoutMs r))
  end.

(** The time one attempt takes. *)
Definition attempt_time (r : t) (b : behaviour) : Z :=
  match b with
  | Throws _ => 0
  | Returns p => fst (race p (timeoutMs r))
  end.

(** The events of one attempt, between its start line and its success or
    failure line. *)
Definition attempt_events (r : t) (payload : jsval) (b : behaviour) : list event :=
  Invoked payload ::
  match b with
  | Throws _ => []
  | Returns _ => [TimerSet (timeoutMs r); TimerCleared]
  end.

Definition fails (r : t) (b : behaviour) : Prop :=
  exists x, attempt_outcome r b = Thrown x.

(** The attempt fails with a value [x] whose [message] can be read. *)
Definition fails_with (r : t) (b : behaviour) (x : thrown) : Prop :=
  attempt_outcome r b = Thrown x /\ nullish x = false.

(** The attempt fails with something other than undefined or null. *)
Definition fails_readably (r : t) (b : behaviour) : Prop :=
  exists x, fails_with r b x.

(** The attempt numbers announced by the start lines, in order. *)
Definition started (evs : list event) : list Z :=
  flat_map (fun ev => match ev with
                      | Log (JobStart _ attempt) => [attempt]
                      | _ => []
                      end) evs.

(** The payloads the handler was invoked with, in order. *)
Definition invoked (evs : list event) : list jsval :=
  flat_map (fun ev => match ev with Invoked p => [p] | _ => [] end) evs.

(** The delays of the backoff timers awaited, in order. *)
Definition backoffs (evs : list event) : list Z :=
  flat_map (fun ev => match ev with Slept ms => [ms] | _ => [] end) evs.

(** The calls of the dead-letter hook: reason and payload. *)
Definition dead_letters (evs : list event) : list (jsval * jsval) :=
  flat_map (fun ev => match ev with
                      | Log (JobDeadLetter _ reason p _) => [(reason, p)]
                      | _ => []
                      end) evs.

(** The attempt numbers [a+1, ..., a+k]. *)
Definition attempts_from (a : Z) (k : nat) : list Z :=
  map (fun i => a + Z.of_nat i) (seq 1 k).



(** A promise that has not settled [timeoutMs] ms after the call. *)
Definition unsettled_within (p : promise) (timeoutMs : Z) : Prop :=
  match p with
  | SettlesAfter ms _ => timeoutMs < ms
  | NeverSettles => True
  end.

(** The delays that Node does not replace. *)
Definition timer_range (d : Z) : Prop := 1 <= d <= 2147483647.

End JobRunner.

(** ** The dependency guard of the server bootstrap *)

Module Server.

(** The axios request configuration, as far as the code reads it. *)
Record config : Type := {
  url : string;
  method : string
}.

Record response : Type := { data : jsval }.

(** One call [fn()] of an asynchronous function: it resolves or rejects
    after some milliseconds (a synchronous throw is a rejection after 0),
    or never settles.  The functions called here are the requests of the
    axios client and [initDB], which reject with [Error] objects. *)
Inductive reply (A : Type) : Type :=
| Resolves (ms : Z) (a : A)
| Rejects (ms : Z) (e : error)
| Hangs.
Arguments Resolves {A} ms a.
Arguments Rejects {A} ms e.
Arguments Hangs {A}.

(** A function called without arguments, possibly with state of its own:
    what it does depends on how many calls were made before. *)
Definition callable (A : Type) : Type := nat -> reply A.

Inductive logline : Type :=
| Critical (msg : string)
| Warn (msg : string)
| ErrorLine (msg : string) (url method error_message : string).

Inductive event : Type :=
| Called
| Waited (ms : Z)
| Logger (l : logline).

(** The module-level variables [dependencyFailures] and
    [circuitOpenUntil] ([None] is [null]), the clock read by [Date.now()],
    the number of calls made so far and the event log. *)
Record world : Type := {
  now : Z;
  dependencyFailures : Z;
  circuitOpenUntil : option Z;
  invocations : nat;
  out : list event
}.

Definition emit (e : event) : M error world unit :=
  modify (fun w => {| now := now w;
                      dependencyFailures := dependencyFailures w;
                      circuitOpenUntil := circuitOpenUntil w;
                      invocations := invocations w;
                      out := out w ++ [e] |}).

Definition advance (ms : Z) (w : world) : world :=
  {| now := now w + ms;
     dependencyFailures := dependencyFailures w;
     circuitOpenUntil := circuitOpenUntil w;
     invocations := invocations w;
     out := out w |}.

(** [await new Promise((r) => setTimeout(r, ms))]; the code calls it with
    500, a delay that the timer takes as it is. *)
Definition wait (ms : Z) : M error world unit :=
  modify (advance ms) ;; emit (Waited ms).

(** [await fn()] *)
Definition invoke {A} (fn : callable A) : M error world A :=
  fun w =>
    let w' := {| now := now w;
                 dependencyFailures := dependencyFailures w;
                 circuitOpenUntil := circuitOpenUntil w;
                 invocations := S (invocations w);
                 out := out w ++ [Called] |} in
    match fn (invocations w) with
    | Resolves ms a => (Normal a, advance ms w')
    | Rejects ms e => (Thrown e, advance ms w')
    | Hangs => (Stuck, w')
    end.

(** [const retryRequest = async (fn, retries = 2) => ...]: the test
    [retries <= 0] in the [catch] block decides whether the function calls
    itself again. *)
Equations? retryRequest {A} (fn : callable A) (retries : Z) : M error world A
  by wf (Z.to_nat retries) lt :=
  retryRequest fn retries :=
    try_catch
      (invoke fn)
      (fun err =>
         match retries <=? 0 as b return (retries <=? 0) = b -> M error world A with
         | true => fun _ => throw err
         | false => fun positive =>
             wait 500 ;;
             retryRequest fn (retries - 1)
         end eq_refl).
Proof. apply Z.leb_gt in positive. lia. Qed.

(** The truth value of a number in a condition: [0] is falsy. *)
Definition truthy (n : Z) : bool := negb (n =? 0).

(** [circuitOpenUntil && Date.now() < circuitOpenUntil], as a condition:
    [null] and [0] are falsy and end the conjunction. *)
Definition circuit_open (w : world) : bool :=
  match circuitOpenUntil w with
  | None => false
  | Some until => truthy until && (now w <? until)
  end.

Definition isCircuitOpen : M error world bool := gets circuit_open.

Definition recordFailure : M error world unit :=
  modify (fun w => {| now := now w;
                      dependencyFailures := dependencyFailures w + 1;
                      circuitOpenUntil := circuitOpenUntil w;
                      invocations := invocations w;
                      out := out w |}) ;;
  failures <- gets dependencyFailures ;;
  if failures >=? 5 then
    modify (fun w => {| now := now w;
                        dependencyFailures := dependencyFailures w;
                        circuitOpenUntil := Some (now w + 60 * 1000);
                        invocations := invocations w;
                        out := out w |}) ;;
    emit (Logger (Critical "Circuit breaker opened for dependency"))
  else ret tt.

Definition recordSuccess : M error world unit :=
  modify (fun w => {| now := now w;
                      dependencyFailures := 0;
                      circuitOpenUntil := None;
                      invocations := invocations w;
                      out := out w |}).

Section Dependency.

(** [apiClient.request]: the remote dependency, outside the program. *)
Variable request : config -> callable response.

(** [req.callDependency = async (config, fallback = null) => ...];
    [retryRequest] is called without its second argument, so with
    [retries = 2].  This is one call from its start to its end with
    nothing else in between; calls in flight together are in [Overlap]
    below. *)
Definition callDependency (cfg : config) (arg : jsval) : M error world jsval :=
  let fallback := default_param arg VNull in
  open <- isCircuitOpen ;;
  if open then
    emit (Logger (Warn "Dependency circuit open – serving fallback")) ;;
    ret fallback
  else
    try_catch
      (resp <- retryRequest (request cfg) 2 ;;
       recordSuccess ;;
       ret (data resp))
      (fun err =>
         recordFailure ;;
         emit (Logger (ErrorLine "API Dependency Failure"
                         (url cfg) (method cfg) (message err))) ;;
         ret fallback).

(** What happens to the guard over time when the calls are made one after
    the other: the clock moves on, or a request handler calls the
    dependency and awaits the result before anything else happens. *)
Inductive activity : Type :=
| Elapse (ms : Z)
| CallDependency (cfg : config) (arg : jsval).

Definition perform1 (a : activity) (w : world) : list (completion error jsval) * world :=
  match a with
  | Elapse ms => ([], advance ms w)
  | CallDependency cfg arg =>
      let (c, w') := callDependency cfg arg w in ([c], w')
  end.

Fixpoint perform (acts : list activity) (w : world)
  : list (completion error jsval) * world :=
  match acts with
  | [] => ([], w)
  | a :: rest =>
      let (cs, w') := perform1 a w in
      let (cs', w'') := perform rest w' in
      (cs ++ cs', w'')
  end.

End Dependency.

(** *** Observations *)

(** The world after a call of [fn] that settled after [ms]. *)
Definition after_call (ms : Z) (w : world) : world :=
  {| now := now w + ms;
     dependencyFailures := dependencyFailures w;
     circuitOpenUntil := circuitOpenUntil w;
     invocations := S (invocations w);
     out := out w ++ [Called] |}.

(** [fn] rejects (or throws) at its [i]-th call. *)
Definition rejects {A} (fn : callable A) (i : nat) : Prop :=
  exists ms e, fn i = Rejects ms e.

(** [j] failed calls, each followed by the 500 ms pause. *)
Fixpoint retry_prefix (j : nat) : list event :=
  match j with
  | O => []
  | S j' => Called :: Waited 500 :: retry_prefix j'
  end.

(** The events of [j + 1] calls: a pause of 500 ms between each call and
    the next, none after the last. *)
Definition retry_trace (j : nat) : list event := retry_prefix j ++ [Called].

(** The number of calls and the pauses in an event log. *)
Definition called (evs : list event) : nat :=
  List.length (filter (fun ev => match ev with Called => true | _ => false end) evs).

Definition pauses (evs : list event) : list Z :=
  flat_map (fun ev => match ev with Waited ms => [ms] | _ => [] end) evs.

(** The time that passes in a sequence of activities by the clock moving
    on, and that no step moves it back. *)
Fixpoint elapsed (acts : list activity) : Z :=
  match acts with
  | [] => 0
  | Elapse ms :: rest => ms + elapsed rest
  | CallDependency _ _ :: rest => elapsed rest
  end.

Definition forward (a : activity) : Prop :=
  match a with
  | Elapse ms => 0 <= ms
  | CallDependency _ _ => True
  end.

(** The fallbacks of the calls in a sequence of activities. *)
Definition fallbacks (acts : list activity) : list (completion error jsval) :=
  flat_map (fun a => match a with
                     | Elapse _ => []
                     | CallDependency _ arg => [Normal (default_param arg VNull)]
                     end) acts.

End Server.

(** ** Calls of the dependency in flight together

    The variables [dependencyFailures] and [circuitOpenUntil] belong to
    the module: the calls of [req.callDependency] made for different
    requests share them.  A call runs until its next [await] and leaves
    the turn to the others: the circuit is tested when the call starts,
    each request is sent when [fn()] is called, and the counter is
    touched when the reply to a request is there. *)

Module Overlap.
Import Server.

(** Where a call of [callDependency] stands: awaiting the reply to the
    request it sent, inside [retryRequest fn retries]; in the 500 ms pause
    of [retryRequest fn retries], whose timer runs at [resume_at] at the
    earliest; or returned. *)
Inductive stage : Type :=
| Requesting (retries : Z)
| Pausing (retries : Z) (resume_at : Z)
| Returned (v : jsval).

Record call : Type := {
  target : config;
  fallback : jsval;
  stands : stage
}.

(** The variables of the module with the calls made so far; a call is
    known by its position. *)
Record server : Type := {
  shared : world;
  flight : list call
}.

(** What happens next: the clock moves on, a request handler calls
    [req.callDependency(config, fallback)], the request of a call is
    answered or fails, or the timer of a pause runs. *)
Inductive step : Type :=
| Tick (ms : Z)
| Enter (cfg : config) (arg : jsval)
| Reply (id : nat) (answer : response + error)
| Resume (id : nat).

(** [fn()]: the request leaves. *)
Definition send (w : world) : world :=
  {| now := now w;
     dependencyFailures := dependencyFailures w;
     circuitOpenUntil := circuitOpenUntil w;
     invocations := S (invocations w);
     out := out w ++ [Called] |}.

Definition place (id : nat) (c : call) (calls : list call) : list call :=
  firstn id calls ++ c :: skipn (S id) calls.

Definition moved (c : call) (s : stage) : call :=
  {| target := target c; fallback := fallback c; stands := s |}.

(** The start of [callDependency] up to its first [await]. *)
Definition enter (cfg : config) (arg : jsval) (s : server) : server :=
  let fb := default_param arg VNull in
  if circuit_open (shared s) then
    {| shared := snd (emit (Logger (Warn "Dependency circuit open – serving fallback"))
                        (shared s));
       flight := flight s ++ [{| target := cfg; fallback := fb;
                                 stands := Returned fb |}] |}
  else
    {| shared := send (shared s);
       flight := flight s ++ [{| target := cfg; fallback := fb;
                                 stands := Requesting 2 |}] |}.

(** The reply to the request of a call: [recordSuccess] and the data, or
    the [catch] block of [retryRequest], which starts the pause or throws
    to the [catch] block of [callDependency]. *)
Definition reply_to (id : nat) (answer : response + error) (s : server) : server :=
  match nth_error (flight s) id with
  | Some c =>
      match stands c, answer with
      | Requesting _, inl resp =>
          {| shared := snd (recordSuccess (shared s));
             flight := place id (moved c (Returned (data resp))) (flight s) |}
      | Requesting retries, inr err =>
          if retries <=? 0 then
            {| shared :=
                 snd ((recordFailure ;;
                       emit (Logger (ErrorLine "API Dependency Failure"
                                       (url (target c)) (method (target c))
                                       (message err)))) (shared s));
               flight := place id (moved c (Returned (fallback c))) (flight s) |}
          else
            {| shared := shared s;
               flight := place id
                           (moved c (Pausing retries (now (shared s) + 500)))
                           (flight s) |}
      | _, _ => s
      end
  | None => s
  end.

(** The timer of the pause runs, not before its time: [retryRequest] calls
    itself with one retry less, and the next request leaves. *)
Definition resume (id : nat) (s : server) : server :=
  match nth_error (flight s) id with
  | Some c =>
      match stands c with
      | Pausing retries resume_at =>
          if resume_at <=? now (shared s) then
            {| shared := send (snd (emit (Waited 500) (shared s)));
               flight := place id (moved c (Requesting (retries - 1))) (flight s) |}
          else s
      | _ => s
      end
  | None => s
  end.

Definition exec (a : step) (s : server) : server :=
  match a with
  | Tick ms => {| shared := advance ms (shared s); flight := flight s |}
  | Enter cfg arg => enter cfg arg s
  | Reply id answer => reply_to id answer s
  | Resume id => resume id s
  end.

Definition exec_all (steps : list step) (s : server) : server :=
  fold_left (fun s' a => exec a s') steps s.

Section Alone.

(** [apiClient.request]: the remote dependency, outside the program. *)
Variable request : config -> callable response.

(** The steps of a call whose requests are answered as [request] says,
    from its request number [i] on: each reply comes when the request has
    taken its time, each retry when its pause of 500 ms is over. *)
Fixpoint answers (cfg : config) (id : nat) (retries : nat) (i : nat) : list step :=
  match request cfg i with
  | Resolves ms resp => [Tick ms; Reply id (inl resp)]
  | Rejects ms err =>
      Tick ms :: Reply id (inr err) ::
      match retries with
      | O => []
      | S less => Tick 500 :: Resume id :: answers cfg id less (S i)
      end
  | Hangs => []
  end.

(** One call from its start to its end, with nothing else in between. *)
Definition alone (cfg : config) (arg : jsval) (s : server) : list step :=
  Enter cfg arg ::
  if circuit_open (shared s) then []
  else answers cfg (List.length (flight s)) 2 (invocations (shared s)).

End Alone.

(** The time that passes in a list of steps, and that no step moves the
    clock back. *)
Fixpoint ticks (steps : list step) : Z :=
  match steps with
  | [] => 0
  | Tick ms :: rest => ms + ticks rest
  | _ :: rest => ticks rest
  end.

Definition onward (a : step) : Prop :=
  match a with
  | Tick ms => 0 <= ms
  | _ => True
  end.

(** No call is awaiting a reply or a timer. *)
Definition settled_call (c : call) : Prop :=
  exists v, stands c = Returned v.

Definition quiet (s : server) : Prop := Forall settled_call (flight s).

(** Where the calls stand, by position. *)
Definition stages (s : server) : list stage := map stands (flight s).

(** The fallbacks of the calls that start in a list of steps. *)
Definition entered (steps : list step) : list jsval :=
  flat_map (fun a => match a with
                     | Enter _ arg => [default_param arg VNull]
                     | _ => []
                     end) steps.

End Overlap.

(** ** Sample runners and worlds *)

Module Demo.
Import JobRunner.

Definition boom : error := Error "boom".

Definition idle_world : world := {| now := 1000; calls := 0; out := [] |}.

(** A handler that throws on every call. *)
Definition always_fails : handler_fn := fun _ _ => Throws boom.

(** A handler whose promise rejects on the first [k] calls and is
    fulfilled with [7] afterwards. *)
Definition fails_then_succeeds (k : nat) : handler_fn :=
  fun i _ =>
    if (i <? k)%nat then Returns (SettlesAfter 10 (Rejected boom))
    else Returns (SettlesAfter 20 (Fulfilled (VNum 7))).


(** A handler that returns the plain value [7]: a promise settled from
    the start. *)
Definition immediate : handler_fn :=
  fun _ _ => Returns (SettlesAfter 0 (Fulfilled (VNum 7))).

(** A handler whose promise is fulfilled only after 9 seconds. *)
Definition slow : handler_fn :=
  fun _ _ => Returns (SettlesAfter 9000 (Fulfilled (VNum 7))).

Definition runner (h : handler_fn) (retries : Z) : t :=
  {| jobName := "demo"; handler := h; maxRetries := retries;
     backoffMs := 2000; timeoutMs := 5000 |}.

(** A handler whose promise is rejected without a reason on the first
    call and fulfilled with [7] afterwards. *)
Definition falters : handler_fn :=
  fun i _ =>
    if (i <? 1)%nat then Returns (SettlesAfter 10 (Rejected (Value VUndefined)))
    else Returns (SettlesAfter 20 (Fulfilled (VNum 7))).

(** A handler whose promise never settles. *)
Definition never : handler_fn := fun _ _ => Returns NeverSettles.

(** Runners used as samples of what the code does at the edges. *)
Definition impatient : t :=
  {| jobName := "demo"; handler := never; maxRetries := 0;
     backoffMs := 0; timeoutMs := 0 |}.



Definition eager : t :=
  {| jobName := "demo"; handler := fails_then_succeeds 1; maxRetries := 1;
     backoffMs := 3000000000; timeoutMs := 5000 |}.

Definition hasty : t :=
  {| jobName := "demo"; handler := immediate; maxRetries := 0;
     backoffMs := 2000; timeoutMs := -5 |}.

(** A server whose dependency has failed four times in a row, and a
    dependency that is down. *)
Definition strained : Server.world :=
  {| Server.now := 1000; Server.dependencyFailures := 4;
     Server.circuitOpenUntil := None; Server.invocations := 12;
     Server.out := [] |}.

Definition down : Server.config -> Server.callable Server.response :=
  fun _ _ => Server.Rejects 30 boom.

Definition endpoint : Server.config :=
  {| Server.url := "/profile"; Server.method := "GET" |}.

(** A function that rejects on its first [k] calls and resolves with 7
    afterwards. *)
Definition flaky (k : nat) : Server.callable jsval :=
  fun i => if (i <? k)%nat then Server.Rejects 30 boom
           else Server.Resolves 40 (VNum 7).

End Demo.

(** ** Further observations on a run *)

Module JobRunnerObs.
Import JobRunner.

(** The events of one attempt with its start line. *)
Definition attempt_log (r : t) (payload : jsval) (a : Z) (b : behaviour)
  : list event :=
  Log (JobStart (jobName r) a) :: attempt_events r payload b.

(** The world after attempt [a] alone: what is left when the [catch]
    block throws on reading [error.message]. *)
Definition after_attempt (r : t) (payload : jsval) (a : Z) (w : world) : world :=
  let b := handler r (calls w) payload in
  {| now := now w + attempt_time r b;
     calls := S (calls w);
     out := out w ++ attempt_log r payload a b |}.

(** The world after attempt [a] succeeded. *)
Definition after_success (r : t) (payload : jsval) (a : Z) (w : world) : world :=
  let b := handler r (calls w) payload in
  {| now := now w + attempt_time r b;
     calls := S (calls w);
     out := out w ++ attempt_log r payload a b
                  ++ [Log (JobSuccess (jobName r) a)] |}.

(** The world after attempt [a] failed with [x] and was dead-lettered. *)
Definition after_exhausted (r : t) (payload : jsval) (a : Z) (x : thrown)
    (w : world) : world :=
  let b := handler r (calls w) payload in
  {| now := now w + attempt_time r b;
     calls := S (calls w);
     out := out w ++ attempt_log r payload a b
                  ++ [Log (JobFailed (jobName r) a (message_value x) payload);
                      Log (JobDeadLetter (jobName r) (message_value x) payload
                             (now w + attempt_time r b))] |}.

(** The delay computed by [_backoff] after attempt [a]. *)
Definition backoff_delay (r : t) (a : Z) : Z := times (backoffMs r) a.

(** The world after attempt [a] failed with [x] and the backoff was
    waited. *)
Definition after_retry (r : t) (payload : jsval) (a : Z) (x : thrown)
    (w : world) : world :=
  let b := handler r (calls w) payload in
  {| now := now w + attempt_time r b + timer_delay (backoff_delay r a);
     calls := S (calls w);
     out := out w ++ attempt_log r payload a b
                  ++ [Log (JobFailed (jobName r) a (message_value x) payload);
                      Log (JobRetry (jobName r) (backoff_delay r a));
                      Slept (backoff_delay r a)] |}.

(** The time taken by the [k] attempts that use the calls number
    [start], ..., [start + k - 1] of the handler. *)
Fixpoint attempts_time (r : t) (payload : jsval) (start k : nat) : Z :=
  match k with
  | O => 0
  | S k' => attempt_time r (handler r start payload)
            + attempts_time r payload (S start) k'
  end.

(** The time waited in the backoffs after the attempts [a+1], ...,
    [a+k]. *)
Fixpoint backoffs_time (r : t) (a : Z) (k : nat) : Z :=
  match k with
  | O => 0
  | S k' => timer_delay (backoff_delay r (a + 1)) + backoffs_time r (a + 1) k'
  end.

(** The sum of a list of delays. *)
Definition total (delays : list Z) : Z := fold_right Z.add 0 delays.

(** The number of timers still set after the events [evs], starting with
    [n] of them set; [None] if a timer is cleared while none is set. *)
Fixpoint timers_after (n : nat) (evs : list event) : option nat :=
  match evs with
  | [] => Some n
  | TimerSet _ :: rest => timers_after (S n) rest
  | TimerCleared :: rest =>
      match n with
      | O => None
      | S m => timers_after m rest
      end
  | _ :: rest => timers_after n rest
  end.

(** The delays the timers were set with. *)
Definition timer_delays (evs : list event) : list Z :=
  flat_map (fun ev => match ev with TimerSet ms => [ms] | _ => [] end) evs.

(** The attempt numbers of the success lines and of the failure lines. *)
Definition succeeded (evs : list event) : list Z :=
  flat_map (fun ev => match ev with
                      | Log (JobSuccess _ a) => [a]
                      | _ => []
                      end) evs.

Definition failed (evs : list event) : list Z :=
  flat_map (fun ev => match ev with
                      | Log (JobFailed _ a _ _) => [a]
                      | _ => []
                      end) evs.


End JobRunnerObs.

(** ** Further observations on the dependency guard *)

Module ServerObs.
Import Server.

(** How an awaited call ends, and the time it takes. *)
Definition settled {A} (rp : reply A) : completion error A :=
  match rp with
  | Resolves _ a => Normal a
  | Rejects _ e => Thrown e
  | Hangs => Stuck
  end.

Definition duration {A} (rp : reply A) : Z :=
  match rp with
  | Resolves ms _ => ms
  | Rejects ms _ => ms
  | Hangs => 0
  end.

(** The time taken by the calls number [start], ..., [start + j] of [fn]. *)
Fixpoint spent {A} (fn : callable A) (start j : nat) : Z :=
  match j with
  | O => duration (fn start)
  | S j' => duration (fn start) + spent fn (S start) j'
  end.

(** Every call of [fn] settles after a time between 0 and [limit]. *)
Definition punctual {A} (fn : callable A) (limit : Z) : Prop :=
  forall i, fn i <> Hangs /\ 0 <= duration (fn i) <= limit.

(** The world after the calls number [0, ..., j] of [fn], with the pause
    of 500 ms after each of the first [j]. *)
Definition after_retries {A} (fn : callable A) (j : nat) (w : world) : world :=
  {| now := now w + spent fn (invocations w) j + 500 * Z.of_nat j;
     dependencyFailures := dependencyFailures w;
     circuitOpenUntil := circuitOpenUntil w;
     invocations := (invocations w + S j)%nat;
     out := out w ++ retry_trace j |}.

(** The line logged by [callDependency] for a failed dependency. *)
Definition failure_line (cfg : config) (e : error) : event :=
  Logger (ErrorLine "API Dependency Failure" (url cfg) (method cfg) (message e)).

(** A dependency that rejects every request, after a time that is not
    negative. *)
Definition down (request : config -> callable response) : Prop :=
  forall cfg i, exists ms e, request cfg i = Rejects ms e /\ 0 <= ms.

(** A sequence of calls of [callDependency]. *)
Definition calling (calls : list (config * jsval)) : list activity :=
  map (fun c => CallDependency (fst c) (snd c)) calls.

(** The value of a JavaScript value in a condition. *)
Definition js_truthy (v : jsval) : bool :=
  match v with
  | VUndefined => false
  | VNull => false
  | VBool b => b
  | VNum n => negb (n =? 0)
  | VStr s => negb (String.eqb s "")
  | VObj _ => true
  end.

(** The value of [circuitOpenUntil && Date.now() < circuitOpenUntil]: the
    left operand itself when it is falsy. *)
Definition isCircuitOpen_value (w : world) : jsval :=
  match circuitOpenUntil w with
  | None => VNull
  | Some until =>
      if js_truthy (VNum until) then VBool (now w <? until) else VNum until
  end.

(** The body of the health check [app.get("/", ...)]; the figures taken
    from [process] and [os] are given. *)
Definition health_check (uptime memory cpu : jsval) (w : world) : jsval :=
  VObj [("success", VBool true);
        ("message", VStr "College Media API is running!");
        ("uptime", uptime);
        ("memory", memory);
        ("cpu", cpu);
        ("dependencyCircuitOpen", isCircuitOpen_value w)].

(** [obj[key]] on an object literal: the first field of that name, or
    [undefined]. *)
Fixpoint field (key : string) (fields : list (string * jsval)) : jsval :=
  match fields with
  | [] => VUndefined
  | (k, v) :: rest => if String.eqb k key then v else field key rest
  end.

Definition get (key : string) (v : jsval) : jsval :=
  match v with
  | VObj fields => field key fields
  | _ => VUndefined
  end.

End ServerObs.

(** ** Further sample data *)

Module Samples.
Import Server.

(** A dependency whose requests number [0, ..., k-1] are rejected after
    30 ms and whose later requests are answered with [{ data: 7 }] after
    40 ms. *)
Definition recovering (k : nat) : config -> callable response :=
  fun _ i =>
    if (i <? k)%nat then Rejects 30 Demo.boom
    else Resolves 40 {| data := VNum 7 |}.

(** A server with a closed circuit that has seen no failure. *)
Definition fresh : world :=
  {| now := 1000; dependencyFailures := 0; circuitOpenUntil := None;
     invocations := 0; out := [] |}.

(** A server whose circuit was opened at time 1000 and whose clock has
    moved past the cooldown since. *)
Definition cooled : world :=
  {| now := 70000; dependencyFailures := 5; circuitOpenUntil := Some 61000;
     invocations := 15; out := [] |}.

(** A call on its last request, alone in flight on a server that has
    seen four failures. *)
Definition last_request : Overlap.call :=
  {| Overlap.target := Demo.endpoint; Overlap.fallback := VNull;
     Overlap.stands := Overlap.Requesting 0 |}.

Definition last_try : Overlap.server :=
  {| Overlap.shared := Demo.strained; Overlap.flight := [last_request] |}.

(** Two calls in flight together on a server that has seen four failures:
    the second call fails three times, with its two pauses, while the
    request of the first is still unanswered. *)
Definition crowded : Overlap.server :=
  Overlap.exec_all
    [Overlap.Enter Demo.endpoint VNull;
     Overlap.Enter Demo.endpoint VNull;
     Overlap.Reply 1 (inr Demo.boom); Overlap.Tick 500; Overlap.Resume 1;
     Overlap.Reply 1 (inr Demo.boom); Overlap.Tick 500; Overlap.Resume 1;
     Overlap.Reply 1 (inr Demo.boom)]
    {| Overlap.shared := Demo.strained; Overlap.flight := [] |}.

End Samples.

(** ** The rest of the server bootstrap: versioning, start and shutdown *)

Module Bootstrap.
Import Server ServerObs.

(** *** The API versioning middleware *)

(** Headers by name.  The names in [req.headers] are in lower case, as
    Node presents them, and are looked up as written. *)
Definition headers : Type := list (string * string).

Fixpoint header (name : string) (hs : headers) : option string :=
  match hs with
  | [] => None
  | (k, v) :: rest => if String.eqb k name then Some v else header name rest
  end.

(** The names of response headers are compared without regard to case. *)
Definition lower_ascii (c : Ascii.ascii) : Ascii.ascii :=
  let n := Ascii.nat_of_ascii c in
  if ((65 <=? n) && (n <=? 90))%nat then Ascii.ascii_of_nat (n + 32) else c.

Fixpoint lower (s : string) : string :=
  match s with
  | EmptyString => EmptyString
  | String c rest => String (lower_ascii c) (lower rest)
  end.

Definition same_name (a b : string) : bool := String.eqb (lower a) (lower b).

(** [res.getHeader(name)] *)
Fixpoint getHeader (name : string) (hs : headers) : option string :=
  match hs with
  | [] => None
  | (k, v) :: rest => if same_name k name then Some v else getHeader name rest
  end.

(** [res.setHeader(name, value)]: the header of that name is replaced, or
    added when there is none. *)
Fixpoint setHeader (name value : string) (hs : headers) : headers :=
  match hs with
  | [] => [(name, value)]
  | (k, v) :: rest =>
      if same_name k name then (name, value) :: rest
      else (k, v) :: setHeader name value rest
  end.

(** [value || fallback] for a header value: an absent header is
    [undefined], and [undefined] and the empty string are falsy. *)
Definition or_else (value : option string) (fallback : string) : string :=
  match value with
  | Some s => if String.eqb s "" then fallback else s
  | None => fallback
  end.

Record req : Type := {
  req_headers : headers;
  apiVersion : option string
}.

Record res : Type := { res_headers : headers }.

(** The middleware: the request and the response as it leaves them, and
    whether it called [next()]. *)
Definition api_versioning (rq : req) (rs : res) : req * res * bool :=
  let version := or_else (header "x-api-version" (req_headers rq)) "v1" in
  ({| req_headers := req_headers rq; apiVersion := Some version |},
   {| res_headers := setHeader "X-API-Version" version (res_headers rs) |},
   true).

(** *** connectDB and startServer *)

Inductive bootline : Type :=
| Info (msg : string)
| Warning (msg : string)
| Failure (msg : string) (error_message : string)
| Critical (msg : string) (error_message : string)
| Running (port : Z).

(** A route mounted with [app.use]: its path ([None] for all paths) and
    the handlers, by name. *)
Definition mount : Type := (option string * list string)%type.

(** The state of the application while it starts: the setting
    ['dbConnection'] of the app ([None] while unset), the module variable
    [dbConnection], the stack of mounted handlers, the port listened on,
    the calls of [initDB] and the log. *)
Record app : Type := {
  setting_dbConnection : option jsval;
  dbConnection : jsval;
  stack : list mount;
  listening : option Z;
  initDB_calls : nat;
  log : list bootline
}.

Definition write (l : bootline) : M error app unit :=
  modify (fun a => {| setting_dbConnection := setting_dbConnection a;
                      dbConnection := dbConnection a;
                      stack := stack a;
                      listening := listening a;
                      initDB_calls := initDB_calls a;
                      log := log a ++ [l] |}).

(** [await initDB()], for a given reply of that function. *)
Definition call_initDB (initDB : reply jsval) : M error app jsval :=
  fun a =>
    (settled initDB,
     {| setting_dbConnection := setting_dbConnection a;
        dbConnection := dbConnection a;
        stack := stack a;
        listening := listening a;
        initDB_calls := S (initDB_calls a);
        log := log a |}).

(** [app.set('dbConnection', value)] *)
Definition app_set_dbConnection (value : jsval) : M error app unit :=
  modify (fun a => {| setting_dbConnection := Some value;
                      dbConnection := dbConnection a;
                      stack := stack a;
                      listening := listening a;
                      initDB_calls := initDB_calls a;
                      log := log a |}).

(** The object [{ useMongoDB: false, mongoose: null }]. *)
Definition file_fallback : jsval :=
  VObj [("useMongoDB", VBool false); ("mongoose", VNull)].

(** [process.env.NODE_ENV === 'test'] *)
Definition is_test (node_env : option string) : bool :=
  match node_env with
  | Some s => String.eqb s "test"
  | None => false
  end.

(** [const connectDB = async () => ...]; [node_env] is
    [process.env.NODE_ENV], [None] when it is not set. *)
Definition connectDB (node_env : option string) (initDB : reply jsval)
  : M error app unit :=
  try_catch
    (if is_test node_env then ret tt
     else
       connection <- call_initDB initDB ;;
       app_set_dbConnection connection ;;
       write (Info "Database initialized successfully"))
    (fun err =>
       write (Failure "Database initialization error:" (message err)) ;;
       app_set_dbConnection file_fallback ;;
       write (Warning "Using file-based database as fallback")).

(** [dbConnection = value] *)
Definition assign_dbConnection (value : jsval) : M error app unit :=
  modify (fun a => {| setting_dbConnection := setting_dbConnection a;
                      dbConnection := value;
                      stack := stack a;
                      listening := listening a;
                      initDB_calls := initDB_calls a;
                      log := log a |}).

(** [app.use(path, ...handlers)] *)
Definition app_use (path : option string) (handlers : list string) : M error app unit :=
  modify (fun a => {| setting_dbConnection := setting_dbConnection a;
                      dbConnection := dbConnection a;
                      stack := stack a ++ [(path, handlers)];
                      listening := listening a;
                      initDB_calls := initDB_calls a;
                      log := log a |}).

(** [server.listen(PORT, ...)] *)
Definition listen (port : Z) : M error app unit :=
  modify (fun a => {| setting_dbConnection := setting_dbConnection a;
                      dbConnection := dbConnection a;
                      stack := stack a;
                      listening := Some port;
                      initDB_calls := initDB_calls a;
                      log := log a ++ [Running port] |}).

(** [const startServer = async () => ...] *)
Definition startServer (port : Z) (initDB : reply jsval) : M error app unit :=
  try_catch
    (connection <- call_initDB initDB ;;
     assign_dbConnection connection ;;
     write (Info "Database initialized successfully"))
    (fun err =>
       write (Critical "Database initialization failed" (message err)) ;;
       assign_dbConnection VNull) ;;
  app_use (Some "/api/auth") ["authLimiter"; "./routes/auth"] ;;
  app_use (Some "/api/users") ["./routes/users"] ;;
  app_use (Some "/api/resume") ["resumeRoutes"] ;;
  app_use (Some "/api/upload") ["uploadRoutes"] ;;
  app_use (Some "/api/messages") ["./routes/messages"] ;;
  app_use (Some "/api/account") ["./routes/account"] ;;
  app_use (Some "/api/notifications") ["./routes/notifications"] ;;
  app_use None ["notFound"] ;;
  app_use None ["errorHandler"] ;;
  listen port.

(** *** Graceful shutdown *)

(** [value?.key]: [undefined] when the value is [null] or [undefined]. *)
Definition optional_get (key : string) (v : jsval) : jsval :=
  match v with
  | VNull => VUndefined
  | VUndefined => VUndefined
  | _ => get key v
  end.

Inductive procline : Type :=
| ShutdownSignal (signal : string)
| UnhandledRejection (reason : string).

(** The process: its clock, the code it exited with ([None] while it
    runs) and its log. *)
Record proc : Type := {
  clock : Z;
  exit_code : option Z;
  plog : list procline
}.

Definition pass (ms : Z) (p : proc) : proc :=
  {| clock := clock p + ms; exit_code := exit_code p; plog := plog p |}.

Definition note (l : procline) (p : proc) : proc :=
  {| clock := clock p; exit_code := exit_code p; plog := plog p ++ [l] |}.

(** [process.exit(code)] *)
Definition process_exit (code : Z) : M error proc unit :=
  modify (fun p => {| clock := clock p; exit_code := Some code; plog := plog p |}).

(** [await dbConnection.mongoose.connection.close(false)], for a given
    reply of that call. *)
Definition close_connection (db_close : reply unit) : M error proc unit :=
  fun p => (settled db_close, pass (duration db_close) p).

(** The callback given to [server.close]. *)
Definition on_closed (connection : jsval) (db_close : reply unit) : M error proc unit :=
  (if js_truthy (optional_get "mongoose" connection)
   then close_connection db_close
   else ret tt) ;;
  process_exit 0.

(** The process after [setTimeout(() => process.exit(1), 10000)] has
    fired, 10000 ms after the signal was handled at [p]. *)
Definition forced (p : proc) : proc :=
  {| clock := clock p + 10000; exit_code := Some 1; plog := plog p |}.

(** [const shutdown = async (signal) => ...] and what follows from it:
    [drain] is the time after which [server.close] calls its callback
    ([None]: never, connections stay open).  The callback and the timer
    compete; what the callback would do after the timer has fired does not
    happen.  A rejection inside the callback reaches the
    [unhandledRejection] handler, which logs it and lets the process run. *)
Definition shutdown (signal : string) (connection : jsval) (drain : option Z)
    (db_close : reply unit) (p : proc) : proc :=
  let p0 := note (ShutdownSignal signal) p in
  match drain with
  | None => forced p0
  | Some d =>
      if d <? 10000 then
        match on_closed connection db_close (pass d p0) with
        | (Normal _, p1) =>
            if clock p1 <? clock p0 + 10000 then p1 else forced p0
        | (Thrown e, p1) =>
            if clock p1 <? clock p0 + 10000
            then forced (note (UnhandledRejection (message e)) p0)
            else forced p0
        | (Stuck, _) => forced p0
        end
      else forced p0
  end.

End Bootstrap.

(** ** The state of the App component *)

Module App.

(** The object [likedPosts]: its own entries, the liked flag by post id.
    Only [toggleLike] writes it, so the values are booleans. *)
Definition liked_map : Type := list (string * bool).

(** The own entry of an object under a key, if it has one. *)
Fixpoint own (key : string) (m : liked_map) : option bool :=
  match m with
  | [] => None
  | (k, v) :: rest => if String.eqb k key then Some v else own key rest
  end.

(** The names every object literal inherits from [Object.prototype]. *)
Definition inherited (key : string) : bool :=
  existsb (String.eqb key)
    ["constructor"; "hasOwnProperty"; "isPrototypeOf"; "propertyIsEnumerable";
     "toLocaleString"; "toString"; "valueOf"; "__proto__";
     "__defineGetter__"; "__defineSetter__"; "__lookupGetter__";
     "__lookupSetter__"].

(** What [obj[key]] yields: the own entry, else an inherited member (a
    function or an object), else [undefined]. *)
Inductive property : Type :=
| Own (b : bool)
| Inherited
| Absent.

Definition get (key : string) (m : liked_map) : property :=
  match own key m with
  | Some b => Own b
  | None => if inherited key then Inherited else Absent
  end.

(** The value in a condition: functions and objects are truthy,
    [undefined] is falsy. *)
Definition truthy (p : property) : bool :=
  match p with
  | Own b => b
  | Inherited => true
  | Absent => false
  end.

(** [{ ...prev, [key]: value }]: a computed key always makes an own
    entry. *)
Fixpoint assign (key : string) (value : bool) (m : liked_map) : liked_map :=
  match m with
  | [] => [(key, value)]
  | (k, v) :: rest =>
      if String.eqb k key then (k, value) :: rest
      else (k, v) :: assign key value rest
  end.

(** The update that [toggleLike(postId)] passes to [setLikedPosts]:
    [{ ...prev, [postId]: !prev[postId] }]. *)
Definition toggleLike (postId : string) (prev : liked_map) : liked_map :=
  assign postId (negb (truthy (get postId prev))) prev.

(** Whether a post is shown as liked: [likedPosts[id]] in a condition. *)
Definition liked (postId : string) (m : liked_map) : bool :=
  truthy (get postId m).

(** [stories.length] for the seven stories of the component. *)
Definition stories_length : Z := 7.

(** The update of the story timer: [(prev + 1) % stories.length]; [%] is
    the remainder with the sign of the dividend. *)
Definition next_story (length prev : Z) : Z := Z.rem (prev + 1) length.

End App.

(** ** Sample data for the bootstrap *)

Module BootSamples.
Import Bootstrap.

(** The application before it is started. *)
Definition cold : app :=
  {| setting_dbConnection := None; dbConnection := VNull; stack := [];
     listening := None; initDB_calls := 0; log := [] |}.

(** A connection to MongoDB, as far as the code reads it. *)
Definition mongo : jsval :=
  VObj [("useMongoDB", VBool true); ("mongoose", VObj [])].

(** The process as the signal arrives. *)
Definition running : proc := {| clock := 0; exit_code := None; plog := [] |}.

End BootSamples.

(** * Properties of the job runner *)

Module JobRunnerFacts.
Import JobRunner JobRunnerObs.

(** ** Numbers and timers *)

Lemma round_double_exact x : Z.abs x < 2 ^ 53 -> round_double x = x.
Proof.
  intros H. unfold round_double. cbv zeta.
  destruct (Z.ltb_spec (Z.abs x) (2 ^ 53)); [reflexivity | lia].
Qed.

Lemma timer_delay_in_range d : timer_range d -> timer_delay d = d.
Proof.
  unfold timer_range, timer_delay. intros [Hlo Hhi].
  destruct (Z.leb_spec 1 d); [| lia].
  destruct (Z.leb_spec d 2147483647); [reflexivity | lia].
Qed.

Lemma timer_delay_clamped d : ~ timer_range d -> timer_delay d = 1.
Proof.
  unfold timer_range, timer_delay. intros H.
  destruct (Z.leb_spec 1 d); [| reflexivity].
  destruct (Z.leb_spec d 2147483647); [lia | reflexivity].
Qed.


Lemma times_in_range a b : timer_range (a * b) -> times a b = a * b.
Proof.
  unfold timer_range, times. intros H. apply round_double_exact.
  change (2 ^ 53) with 9007199254740992. lia.
Qed.

Lemma backoff_delay_in_range r a :
  timer_range (backoffMs r * a) ->
  backoff_delay r a = backoffMs r * a /\
  timer_delay (backoff_delay r a) = backoffMs r * a.
Proof.
  intros H. unfold backoff_delay. rewrite (times_in_range _ _ H).
  split; [reflexivity | apply timer_delay_in_range, H].
Qed.

(** ** The loop, turn by turn *)

Lemma run_loop_unfold r payload attempt :
  run_loop r payload attempt =
  if attempt <=? maxRetries r then
    f <- loop_body r payload (attempt + 1) ;;
    match f with
    | Return v => ret v
    | Continue => run_loop r payload (attempt + 1)
    end
  else ret VUndefined.
Proof.
  rewrite run_loop_equation_1. unfold inspect.
  generalize (@eq_refl bool (attempt <=? maxRetries r)).
  generalize (attempt <=? maxRetries r) at 2 4 5.
  intros [] e; simp run_loop; reflexivity.
Qed.

(** One turn of the loop, in closed form. *)
Lemma loop_body_spec r payload a w :
  loop_body r payload a w =
  match attempt_outcome r (handler r (calls w) payload) with
  | Normal v => (Normal (Return v), after_success r payload a w)
  | Thrown x =>
      if nullish x then
        (Thrown (ErrorObject (cannot_read_message x)), after_attempt r payload a w)
      else if a >? maxRetries r then
        (Thrown x, after_exhausted r payload a x w)
      else
        (Normal Continue, after_retry r payload a x w)
  | Stuck => (Stuck, w)
  end.
Proof.
  unfold loop_body, try_catch, bind, call_handler, _runWithTimeout, finally,
    emit, advance, modify, _moveToDeadLetterQueue, _backoff, read_message,
    gets, ret, throw, attempt_outcome, attempt_time, attempt_events, race,
    after_success, after_attempt, after_exhausted, after_retry, attempt_log,
    backoff_delay, attempt_events, attempt_time.
  cbn.
  destruct (handler r (calls w) payload) as [x | [ms [v | x] |]]; cbn.
  - destruct (nullish x) eqn:Hx; cbn;
      [| destruct (a >? maxRetries r); cbn; rewrite ?Hx; cbn];
      rewrite ?Z.add_0_r, <- ?app_assoc; reflexivity.
  - destruct (ms <=? timer_delay (timeoutMs r)); cbn;
      [| destruct (a >? maxRetries r); cbn];
      rewrite <- ?app_assoc; reflexivity.
  - destruct (ms <=? timer_delay (timeoutMs r)); cbn.
    + destruct (nullish x) eqn:Hx; cbn;
        [| destruct (a >? maxRetries r); cbn; rewrite ?Hx; cbn];
        rewrite <- ?app_assoc; reflexivity.
    + destruct (a >? maxRetries r); cbn; rewrite <- ?app_assoc; reflexivity.
  - destruct (a >? maxRetries r); cbn; rewrite <- ?app_assoc; reflexivity.
Qed.

(** An attempt always ends: the timer of the race runs at the latest. *)
Lemma attempt_outcome_settles r b : attempt_outcome r b <> Stuck.
Proof.
  destruct b as [x | [ms [v | x] |]]; cbn; try discriminate;
    destruct (ms <=? timer_delay (timeoutMs r)); discriminate.
Qed.

(** The observations are computed event by event. *)
Lemma started_app l1 l2 : started (l1 ++ l2) = started l1 ++ started l2.
Proof. apply flat_map_app. Qed.

Lemma invoked_app l1 l2 : invoked (l1 ++ l2) = invoked l1 ++ invoked l2.
Proof. apply flat_map_app. Qed.

Lemma backoffs_app l1 l2 : backoffs (l1 ++ l2) = backoffs l1 ++ backoffs l2.
Proof. apply flat_map_app. Qed.

Lemma dead_letters_app l1 l2 :
  dead_letters (l1 ++ l2) = dead_letters l1 ++ dead_letters l2.
Proof. apply flat_map_app. Qed.

Lemma started_attempt r payload b : started (attempt_events r payload b) = [].
Proof. destruct b; reflexivity. Qed.

Lemma invoked_attempt r payload b :
  invoked (attempt_events r payload b) = [payload].
Proof. destruct b; reflexivity. Qed.

Lemma backoffs_attempt r payload b : backoffs (attempt_events r payload b) = [].
Proof. destruct b; reflexivity. Qed.

Lemma dead_letters_attempt r payload b :
  dead_letters (attempt_events r payload b) = [].
Proof. destruct b; reflexivity. Qed.

Ltac observe :=
  repeat (rewrite ?started_app, ?invoked_app, ?backoffs_app, ?dead_letters_app,
            ?started_attempt, ?invoked_attempt, ?backoffs_attempt,
            ?dead_letters_attempt;
          cbn [started invoked backoffs dead_letters flat_map List.app
               attempt_log]);
  try reflexivity.

(** A turn of the loop reached with the guard false ends the run. *)
Lemma run_loop_exit r payload a w :
  maxRetries r < a -> run_loop r payload a w = (Normal VUndefined, w).
Proof.
  intros H. rewrite run_loop_unfold.
  destruct (Z.leb_spec a (maxRetries r)); [lia | reflexivity].
Qed.

(** A successful attempt ends the run with its value. *)
Lemma run_loop_success r payload a w v :
  a <= maxRetries r ->
  attempt_outcome r (handler r (calls w) payload) = Normal v ->
  run_loop r payload a w = (Normal v, after_success r payload (a + 1) w).
Proof.
  intros Ha Hv. rewrite run_loop_unfold.
  destruct (Z.leb_spec a (maxRetries r)); [| lia].
  unfold bind. rewrite loop_body_spec, Hv. reflexivity.
Qed.

(** A failed attempt with attempts left is followed by its backoff and
    the next turn. *)
Lemma run_loop_retry r payload a w x :
  a + 1 <= maxRetries r ->
  fails_with r (handler r (calls w) payload) x ->
  run_loop r payload a w
  = run_loop r payload (a + 1) (after_retry r payload (a + 1) x w).
Proof.
  intros Ha [Hx Hread]. rewrite run_loop_unfold.
  destruct (Z.leb_spec a (maxRetries r)); [| lia].
  unfold bind. rewrite loop_body_spec, Hx, Hread.
  destruct (Z.gtb_spec (a + 1) (maxRetries r)); [lia | reflexivity].
Qed.

(** A failed last attempt is dead-lettered and its error thrown. *)
Lemma run_loop_exhausted r payload a w x :
  a = maxRetries r ->
  fails_with r (handler r (calls w) payload) x ->
  run_loop r payload a w = (Thrown x, after_exhausted r payload (a + 1) x w).
Proof.
  intros Ha [Hx Hread]. rewrite run_loop_unfold.
  destruct (Z.leb_spec a (maxRetries r)); [| lia].
  unfold bind. rewrite loop_body_spec, Hx, Hread.
  destruct (Z.gtb_spec (a + 1) (maxRetries r)); [reflexivity | lia].
Qed.

(** An attempt that fails with undefined or null ends the run with the
    [TypeError] of the [catch] block, whatever attempts are left. *)
Lemma run_loop_unreadable r payload a w x :
  a <= maxRetries r ->
  attempt_outcome r (handler r (calls w) payload) = Thrown x ->
  nullish x = true ->
  run_loop r payload a w
  = (Thrown (ErrorObject (cannot_read_message x)),
     after_attempt r payload (a + 1) w).
Proof.
  intros Ha Hx Hnull. rewrite run_loop_unfold.
  destruct (Z.leb_spec a (maxRetries r)); [| lia].
  unfold bind. rewrite loop_body_spec, Hx, Hnull. reflexivity.
Qed.

Lemma attempts_from_S a k :
  attempts_from a (S k) = (a + 1) :: attempts_from (a + 1) k.
Proof.
  unfold attempts_from. cbn [seq map]. f_equal.
  rewrite <- seq_shift, map_map. apply map_ext. intros i. lia.
Qed.

Lemma attempts_from_last a k :
  attempts_from a (S k) = attempts_from a k ++ [a + Z.of_nat (S k)].
Proof.
  unfold attempts_from. rewrite seq_S, map_app. reflexivity.
Qed.

Lemma repeat_last (A : Type) (x : A) k : repeat x k ++ [x] = repeat x (S k).
Proof.
  induction k as [| k IH]; [reflexivity |].
  cbn [repeat List.app]. rewrite IH. reflexivity.
Qed.

Lemma total_app l1 l2 : total (l1 ++ l2) = total l1 + total l2.
Proof.
  unfold total. induction l1 as [| d l1 IH]; cbn [List.app fold_right]; lia.
Qed.

Lemma attempts_time_last r payload start k :
  attempts_time r payload start (S k)
  = attempts_time r payload start k
    + attempt_time r (handler r (start + k)%nat payload).
Proof.
  revert start. induction k as [| k IH]; intros start.
  - cbn [attempts_time]. rewrite Nat.add_0_r. lia.
  - change (attempts_time r payload start (S (S k)))
      with (attempt_time r (handler r start payload)
            + attempts_time r payload (S start) (S k)).
    rewrite IH. cbn [attempts_time].
    replace (S start + k)%nat with (start + S k)%nat by lia. lia.
Qed.

(** [k] failed attempts in a row, all with attempts left and with errors
    whose message can be read. *)
Lemma run_loop_failures r payload k :
  forall a w,
    a + Z.of_nat k <= maxRetries r ->
    (forall i, (i < k)%nat ->
               fails_readably r (handler r (calls w + i)%nat payload)) ->
    exists w' evs,
      run_loop r payload a w = run_loop r payload (a + Z.of_nat k) w' /\
      calls w' = (calls w + k)%nat /\
      now w' = now w + attempts_time r payload (calls w) k + backoffs_time r a k /\
      out w' = out w ++ evs /\
      started evs = attempts_from a k /\
      invoked evs = repeat payload k /\
      backoffs evs = map (backoff_delay r) (attempts_from a k) /\
      dead_letters evs = [].
Proof.
  induction k as [| k IH]; intros a w Ha Hfail.
  - exists w, []. rewrite Z.add_0_r, Nat.add_0_r, app_nil_r.
    cbn [attempts_time backoffs_time]. rewrite !Z.add_0_r. repeat split.
  - destruct (Hfail 0%nat ltac:(lia)) as [x Hx]. rewrite Nat.add_0_r in Hx.
    rewrite (run_loop_retry r payload a w x ltac:(lia) Hx).
    destruct (IH (a + 1) (after_retry r payload (a + 1) x w) ltac:(lia)) as
      (w2 & evs2 & Hrun2 & Hcalls2 & Hnow2 & Hout2 & Hs2 & Hi2 & Hb2 & Hd2).
    { intros i Hi. cbn [calls after_retry].
      replace (S (calls w) + i)%nat with (calls w + S i)%nat by lia.
      apply Hfail. lia. }
    cbn [calls now out after_retry] in Hcalls2, Hnow2, Hout2.
    eexists w2, (_ ++ evs2).
    rewrite Hrun2, Hcalls2, Hnow2, Hout2, attempts_from_S, <- app_assoc.
    split; [f_equal; lia |]. split; [lia |].
    split; [cbn [attempts_time backoffs_time]; lia |].
    split; [reflexivity |].
    observe. rewrite Hs2, Hi2, Hb2, Hd2. repeat split.
Qed.

(** Where no product leaves the range of timers, the backoffs are the
    products themselves. *)
Lemma backoffs_in_range r k :
  forall a,
    (forall i, a + 1 <= i <= a + Z.of_nat k -> timer_range (backoffMs r * i)) ->
    map (backoff_delay r) (attempts_from a k)
    = map (Z.mul (backoffMs r)) (attempts_from a k) /\
    backoffs_time r a k = total (map (Z.mul (backoffMs r)) (attempts_from a k)).
Proof.
  induction k as [| k IH]; intros a Hrange; [split; reflexivity |].
  rewrite attempts_from_S. cbn [map backoffs_time total fold_right].
  destruct (backoff_delay_in_range r (a + 1) (Hrange (a + 1) ltac:(lia)))
    as [-> ->].
  destruct (IH (a + 1)) as [-> ->]; [intros i Hi; apply Hrange; lia |].
  split; reflexivity.
Qed.

Lemma attempts_from_0 (f : Z -> Z) k :
  map f (attempts_from 0 k) = map (fun i => f (Z.of_nat i)) (seq 1 k).
Proof. unfold attempts_from. rewrite map_map. reflexivity. Qed.

(** ** The claims about [run] *)




(** C2, as the code has it.  When the first [k] attempts fail with
    something other than undefined or null, attempt [k+1] succeeds with
    [v], [maxRetries >= k] and the products [backoffMs * i] for
    i = 1, ..., k are delays that Node does not replace, [run] returns [v]
    after the attempts 1, ..., k+1, one handler invocation each, without
    calling the dead-letter hook, and having waited exactly [k] backoffs,
    the i-th of them of [backoffMs * i] ms: attempt [j+1] begins when the
    first [j] attempts and the delays [backoffMs * 1], ...,
    [backoffMs * j] have passed, and the run ends when all [k+1] attempts
    and the [k] delays have. *)
Theorem run_succeeds_after_failures (r : t) (arg : jsval) (w : world)
    (k : nat) (v : jsval) :
  let payload := default_param arg empty_object in
  let delays := fun j => map (fun i => backoffMs r * Z.of_nat i) (seq 1 j) in
  Z.of_nat k <= maxRetries r ->
  (forall i, (i < k)%nat ->
             fails_readably r (handler r (calls w + i)%nat payload)) ->
  attempt_outcome r (handler r (calls w + k)%nat payload) = Normal v ->
  (forall i, 1 <= i <= Z.of_nat k -> timer_range (backoffMs r * i)) ->
  (exists w' evs,
      run r arg w = (Normal v, w') /\
      out w' = out w ++ evs /\
      started evs = attempts_from 0 (S k) /\
      invoked evs = repeat payload (S k) /\
      backoffs evs = delays k /\
      dead_letters evs = [] /\
      now w' = now w + attempts_time r payload (calls w) (S k) + total (delays k)) /\
  (forall j, (j <= k)%nat ->
      exists wj,
        run r arg w = run_loop r payload (Z.of_nat j) wj /\
        calls wj = (calls w + j)%nat /\
        now wj = now w + attempts_time r payload (calls w) j + total (delays j)).
Proof.
  intros payload delays Hk Hfail Hv Hrange. unfold run. fold payload.
  assert (Hprefix : forall j, (j <= k)%nat ->
            exists wj evs,
              run_loop r payload 0 w = run_loop r payload (Z.of_nat j) wj /\
              calls wj = (calls w + j)%nat /\
              now wj = now w + attempts_time r payload (calls w) j
                       + total (delays j) /\
              out wj = out w ++ evs /\
              started evs = attempts_from 0 j /\
              invoked evs = repeat payload j /\
              backoffs evs = delays j /\
              dead_letters evs = []).
  { intros j Hj.
    destruct (run_loop_failures r payload j 0 w ltac:(lia))
      as (wj & evs & Hrun & Hcalls & Hnow & Hout & Hs & Hi & Hb & Hd).
    { intros i Hlt. apply Hfail. lia. }
    destruct (backoffs_in_range r j 0) as [Hdelays Htime].
    { intros i Hin. apply Hrange. lia. }
    rewrite Hdelays in Hb. rewrite Htime in Hnow.
    rewrite attempts_from_0 in Hb, Hnow.
    exists wj, evs. repeat split; assumption. }
  split.
  - destruct (Hprefix k (le_n k))
      as (w1 & evs1 & Hrun1 & Hcalls1 & Hnow1 & Hout1 & Hs1 & Hi1 & Hb1 & Hd1).
    rewrite <- Hcalls1 in Hv.
    rewrite Hrun1, (run_loop_success r payload (Z.of_nat k) w1 v ltac:(lia) Hv).
    eexists. eexists (evs1 ++ _). split; [reflexivity |].
    cbn [now out after_success]. rewrite Hout1, <- app_assoc.
    split; [reflexivity |].
    observe. rewrite Hs1, Hi1, Hb1, Hd1, attempts_from_last, repeat_last, app_nil_r.
    repeat split.
    + do 2 f_equal. lia.
    + rewrite Hnow1, Hcalls1, attempts_time_last. lia.
  - intros j Hj.
    destruct (Hprefix j Hj) as (wj & evs & Hrun & Hcalls & Hnow & _).
    exists wj. repeat split; assumption.
Qed.

Lemma run_succeeds_after_failures_witness :
  (exists w' evs,
      run (Demo.runner (Demo.fails_then_succeeds 2) 3) (VNum 1) Demo.idle_world
      = (Normal (VNum 7), w') /\
      out w' = out Demo.idle_world ++ evs /\
      started evs = attempts_from 0 3 /\
      invoked evs = repeat (VNum 1) 3 /\
      backoffs evs = [2000; 4000] /\
      dead_letters evs = [] /\
      now w' = 1000 + (10 + 10 + 20) + (2000 + 4000)) /\
  (exists w2,
      run (Demo.runner (Demo.fails_then_succeeds 2) 3) (VNum 1) Demo.idle_world
      = run_loop (Demo.runner (Demo.fails_then_succeeds 2) 3) (VNum 1) 2 w2 /\
      calls w2 = 2%nat /\
      now w2 = 1000 + (10 + 10) + (2000 + 4000)).
Proof.
  destruct (run_succeeds_after_failures
              (Demo.runner (Demo.fails_then_succeeds 2) 3) (VNum 1)
              Demo.idle_world 2 (VNum 7)) as [Hend Hprefix].
  - simpl. lia.
  - intros i Hi. exists (ErrorObject Demo.boom).
    destruct i as [| [| i]]; [split; reflexivity | split; reflexivity | lia].
  - reflexivity.
  - intros i Hi. unfold timer_range.
    change (backoffMs (Demo.runner (Demo.fails_then_succeeds 2) 3)) with 2000.
    change (Z.of_nat 2) with 2 in Hi. lia.
  - split; [exact Hend | exact (Hprefix 2%nat (le_n 2))].
Defined.

(** C2 as stated fails in two ways.  An operation that fails once, its
    promise rejected without a reason, and would succeed at the second
    call is not called again: with [maxRetries = 2], [run] throws a
    [TypeError] after one attempt.  And with [backoffMs = 3000000000] the
    delay taken after the failed attempt 1 is not [backoffMs * 1]: the
    run, with attempts of 10 and 20 ms, is over after 31 ms. *)
Lemma success_after_failure_missed :
  (fails (Demo.runner Demo.falters 2) (Demo.falters 0%nat (VObj [])) /\
   attempt_outcome (Demo.runner Demo.falters 2) (Demo.falters 1%nat (VObj []))
   = Normal (VNum 7) /\
   fst (run (Demo.runner Demo.falters 2) VUndefined Demo.idle_world)
   <> Normal (VNum 7) /\
   invoked (out (snd (run (Demo.runner Demo.falters 2) VUndefined
                        Demo.idle_world))) = [VObj []]) /\
  (fails Demo.eager (handler Demo.eager 0%nat (VObj [])) /\
   attempt_outcome Demo.eager (handler Demo.eager 1%nat (VObj [])) = Normal (VNum 7) /\
   fst (run Demo.eager VUndefined Demo.idle_world) = Normal (VNum 7) /\
   backoffMs Demo.eager * 1 = 3000000000 /\
   now (snd (run Demo.eager VUndefined Demo.idle_world))
   = now Demo.idle_world + 10 + 1 + 20).
Proof.
  split.
  - split; [exists (Value VUndefined); reflexivity |].
    split; [reflexivity |].
    change (run (Demo.runner Demo.falters 2) VUndefined Demo.idle_world)
      with (run_loop (Demo.runner Demo.falters 2) (VObj []) 0 Demo.idle_world).
    rewrite (run_loop_unreadable (Demo.runner Demo.falters 2) (VObj []) 0
               Demo.idle_world (Value VUndefined) ltac:(simpl; lia)
               eq_refl eq_refl).
    split; [discriminate | reflexivity].
  - split; [exists (ErrorObject Demo.boom); reflexivity |].
    split; [reflexivity |].
    change (run Demo.eager VUndefined Demo.idle_world)
      with (run_loop Demo.eager (VObj []) 0 Demo.idle_world).
    rewrite (run_loop_retry Demo.eager (VObj []) 0 Demo.idle_world
               (ErrorObject Demo.boom) ltac:(simpl; lia)
               (conj eq_refl eq_refl)).
    rewrite (run_loop_success Demo.eager (VObj []) (0 + 1)
               (after_retry Demo.eager (VObj []) (0 + 1) (ErrorObject Demo.boom)
                  Demo.idle_world)
               (VNum 7) ltac:(simpl; lia) eq_refl).
    repeat split.
Qed.

(** C3, as the code has it.  Where [backoffMs * i] is a delay that Node
    does not replace (between 1 and 2147483647), [_backoff] for attempt
    [i] announces [backoffMs * i] and resumes exactly that many
    milliseconds later; in [run], that is what follows a failed attempt
    [i] with attempts left.  The delay grows by [backoffMs] from one
    attempt to the next, and so differs from the doubling
    [backoffMs * 2^(i-1)] at attempt 3. *)
Theorem backoff_is_linear (r : t) (i : Z) (w : world) :
  timer_range (backoffMs r * i) ->
  _backoff r i w =
    (Normal tt,
     {| now := now w + backoffMs r * i; calls := calls w;
        out := out w ++ [Log (JobRetry (jobName r) (backoffMs r * i));
                         Slept (backoffMs r * i)] |}) /\
  (forall payload x,
      fails_with r (handler r (calls w) payload) x ->
      i <= maxRetries r ->
      fst (loop_body r payload i w) = Normal Continue /\
      now (snd (loop_body r payload i w))
      = now w + attempt_time r (handler r (calls w) payload) + backoffMs r * i /\
      backoffs (out (snd (loop_body r payload i w)))
      = backoffs (out w) ++ [backoffMs r * i]) /\
  (timer_range (backoffMs r * (i + 1)) ->
   now (snd (_backoff r (i + 1) w)) - now (snd (_backoff r i w)) = backoffMs r) /\
  (timer_range (backoffMs r * 3) ->
   now (snd (_backoff r 3 w)) <> now w + backoffMs r * 2 ^ (3 - 1)).
Proof.
  intros Hi.
  assert (Hrun : forall j,
             timer_range (backoffMs r * j) ->
             _backoff r j w =
             (Normal tt,
              {| now := now w + backoffMs r * j; calls := calls w;
                 out := out w ++ [Log (JobRetry (jobName r) (backoffMs r * j));
                                  Slept (backoffMs r * j)] |})).
  { intros j Hj. unfold _backoff, bind, emit, advance, modify. cbn.
    rewrite (times_in_range _ _ Hj), (timer_delay_in_range _ Hj), <- app_assoc.
    reflexivity. }
  split; [apply Hrun, Hi |]. split; [| split].
  - intros payload x [Hx Hread] Hle. rewrite loop_body_spec, Hx, Hread.
    destruct (Z.gtb_spec i (maxRetries r)); [lia |].
    destruct (backoff_delay_in_range r i Hi) as [Hdelay Htimer].
    cbn [fst snd now out after_retry]. rewrite Htimer, Hdelay.
    split; [reflexivity |]. split; [reflexivity |]. observe.
  - intros Hnext. rewrite (Hrun i Hi), (Hrun (i + 1) Hnext). cbn [snd now]. lia.
  - intros H3. rewrite (Hrun 3 H3). cbn [snd now].
    change (2 ^ (3 - 1)) with 4. unfold timer_range in H3. lia.
Qed.

Lemma backoff_is_linear_witness :
  _backoff (Demo.runner Demo.always_fails 3) 2 Demo.idle_world =
    (Normal tt,
     {| now := 1000 + 2000 * 2; calls := 0;
        out := [Log (JobRetry "demo" (2000 * 2)); Slept (2000 * 2)] |}) /\
  now (snd (loop_body (Demo.runner Demo.always_fails 3) VNull 2 Demo.idle_world))
  = 1000 + 0 + 2000 * 2 /\
  now (snd (_backoff (Demo.runner Demo.always_fails 3) 3 Demo.idle_world))
  - now (snd (_backoff (Demo.runner Demo.always_fails 3) 2 Demo.idle_world))
  = 2000 /\
  now (snd (_backoff (Demo.runner Demo.always_fails 3) 3 Demo.idle_world))
  <> 1000 + 2000 * 2 ^ (3 - 1).
Proof.
  assert (Hrange : forall j, 1 <= j <= 3 ->
            timer_range (backoffMs (Demo.runner Demo.always_fails 3) * j)).
  { intros j Hj. unfold timer_range.
    change (backoffMs (Demo.runner Demo.always_fails 3)) with 2000. lia. }
  destruct (backoff_is_linear (Demo.runner Demo.always_fails 3) 2
              Demo.idle_world (Hrange 2 ltac:(lia)))
    as (Hrun & Hloop & Hstep & Hexp).
  split; [exact Hrun |]. split; [| split].
  - apply (Hloop VNull (ErrorObject Demo.boom)); [split; reflexivity | simpl; lia].
  - exact (Hstep (Hrange 3 ltac:(lia))).
  - exact (Hexp (Hrange 3 ltac:(lia))).
Defined.

(** C3 as stated fails where the product is not a delay that Node takes:
    with [backoffMs = 3000000000], [_backoff] for attempt 1 announces
    3000000000 ms and resumes after 1 ms. *)
Lemma backoff_not_the_product :
  backoffMs Demo.eager * 1 = 3000000000 /\
  _backoff Demo.eager 1 Demo.idle_world =
    (Normal tt,
     {| now := now Demo.idle_world + 1; calls := 0;
        out := [Log (JobRetry "demo" 3000000000); Slept 3000000000] |}) /\
  now (snd (_backoff Demo.eager 1 Demo.idle_world))
  <> now Demo.idle_world + backoffMs Demo.eager * 1.
Proof.
  split; [reflexivity |]. split; [reflexivity |]. discriminate.
Qed.

(** C4, as the code has it.  Where [timeoutMs] is a delay that Node does
    not replace and the promise of the operation has not settled
    [timeoutMs] ms after the call (it settles later, with a value or an
    error, or never), [_runWithTimeout] throws the error "Job execution
    timed out" after [timeoutMs], whatever the promise does later; all it
    does besides is set and clear its timer, nothing is done to the
    operation.  In [run] such an attempt is logged as failed with that
    message. *)
Theorem runWithTimeout_times_out (p : promise) (ms : Z) (w : world) :
  timer_range ms ->
  unsettled_within p ms ->
  _runWithTimeout p ms w =
    (Thrown (ErrorObject (Error "Job execution timed out")),
     {| now := now w + ms; calls := calls w;
        out := out w ++ [TimerSet ms; TimerCleared] |}) /\
  (forall r payload a,
      timeoutMs r = ms ->
      handler r (calls w) payload = Returns p ->
      In (Log (JobFailed (jobName r) a (VStr "Job execution timed out") payload))
        (out (snd (loop_body r payload a w)))).
Proof.
  intros Hms Hp.
  assert (Hrace : race p ms = (ms, Thrown (ErrorObject timeout_error))).
  { destruct p as [t s |]; cbn in *; rewrite (timer_delay_in_range ms Hms);
      [| reflexivity].
    destruct (Z.leb_spec t ms); [lia | reflexivity]. }
  split.
  - unfold _runWithTimeout, bind, finally, emit, advance, modify.
    rewrite Hrace. cbn. rewrite <- app_assoc. reflexivity.
  - intros r payload a Hr Hb. rewrite loop_body_spec.
    unfold attempt_outcome. rewrite Hb, Hr, Hrace. cbn [snd nullish].
    destruct (a >? maxRetries r); cbn [snd out after_exhausted after_retry];
      rewrite !in_app_iff; right; right; left; reflexivity.
Qed.

Lemma runWithTimeout_times_out_witness :
  _runWithTimeout (SettlesAfter 9000 (Fulfilled (VNum 7))) 5000 Demo.idle_world =
    (Thrown (ErrorObject (Error "Job execution timed out")),
     {| now := 6000; calls := 0; out := [TimerSet 5000; TimerCleared] |}) /\
  In (Log (JobFailed "demo" 1 (VStr "Job execution timed out") VNull))
    (out (snd (loop_body (Demo.runner Demo.slow 3) VNull 1 Demo.idle_world))).
Proof.
  destruct (runWithTimeout_times_out (SettlesAfter 9000 (Fulfilled (VNum 7)))
              5000 Demo.idle_world) as [Hrun Hloop].
  - unfold timer_range. lia.
  - simpl. lia.
  - split.
    + exact Hrun.
    + apply (Hloop (Demo.runner Demo.slow 3) VNull 1); reflexivity.
Defined.

(** C4 as stated fails outside the delays that Node takes.  With
    [timeoutMs = -5] a value that is there from the start has not settled
    within [timeoutMs], yet it is returned; with [timeoutMs = 3000000000]
    an operation that never settles is timed out after 1 ms. *)
Lemma timeout_outside_timer_range :
  (unsettled_within (SettlesAfter 0 (Fulfilled (VNum 7))) (-5) /\
   _runWithTimeout (SettlesAfter 0 (Fulfilled (VNum 7))) (-5) Demo.idle_world =
     (Normal (VNum 7),
      {| now := now Demo.idle_world; calls := 0;
         out := [TimerSet (-5); TimerCleared] |})) /\
  (unsettled_within NeverSettles 3000000000 /\
   _runWithTimeout NeverSettles 3000000000 Demo.idle_world =
     (Thrown (ErrorObject (Error "Job execution timed out")),
      {| now := now Demo.idle_world + 1; calls := 0;
         out := [TimerSet 3000000000; TimerCleared] |})).
Proof.
  split; (split; [simpl; try lia; exact I | reflexivity]).
Qed.

(** C5, as the code has it.  When the first attempt succeeds with [v] and
    [maxRetries >= 0], [run] makes exactly one attempt, invokes the handler
    exactly once and returns [v] unchanged. *)
Theorem run_first_success (r : t) (arg : jsval) (w : world) (v : jsval) :
  let payload := default_param arg empty_object in
  0 <= maxRetries r ->
  attempt_outcome r (handler r (calls w) payload) = Normal v ->
  exists w' evs,
    run r arg w = (Normal v, w') /\
    out w' = out w ++ evs /\
    started evs = [1] /\
    invoked evs = [payload] /\
    backoffs evs = [] /\
    dead_letters evs = [].
Proof.
  intros payload Hn Hv. unfold run. fold payload.
  rewrite (run_loop_success r payload 0 w v Hn Hv).
  eexists. eexists. split; [reflexivity |].
  cbn [out after_success]. split; [reflexivity |].
  repeat split; observe.
Qed.

Lemma run_first_success_witness :
  exists w' evs,
    run (Demo.runner (Demo.fails_then_succeeds 0) 0) (VNum 1) Demo.idle_world
    = (Normal (VNum 7), w') /\
    out w' = out Demo.idle_world ++ evs /\
    started evs = [1] /\
    invoked evs = [VNum 1] /\
    backoffs evs = [] /\
    dead_letters evs = [].
Proof.
  apply (run_first_success (Demo.runner (Demo.fails_then_succeeds 0) 0)
           (VNum 1) Demo.idle_world (VNum 7)).
  - simpl. lia.
  - reflexivity.
Defined.

(** C5 as stated fails for a runner with [maxRetries = -1]: the handler
    would succeed with 7 on its first call, but [run] never calls it and
    returns [undefined], leaving the world untouched. *)
Lemma first_success_without_attempt :
  attempt_outcome (Demo.runner (Demo.fails_then_succeeds 0) (-1))
    (handler (Demo.runner (Demo.fails_then_succeeds 0) (-1))
       (calls Demo.idle_world) (VNum 1)) = Normal (VNum 7) /\
  run (Demo.runner (Demo.fails_then_succeeds 0) (-1)) (VNum 1) Demo.idle_world
  = (Normal VUndefined, Demo.idle_world) /\
  fst (run (Demo.runner (Demo.fails_then_succeeds 0) (-1)) (VNum 1)
         Demo.idle_world) <> Normal (VNum 7) /\
  invoked (out (snd (run (Demo.runner (Demo.fails_then_succeeds 0) (-1))
                       (VNum 1) Demo.idle_world))) = [].
Proof.
  repeat split. intros H. discriminate H.
Qed.

(** C9. With [maxRetries < 0] the guard of the loop fails at once: [run]
    resolves with [undefined] and leaves the world as it was, so the
    handler is not invoked, nothing is logged or dead-lettered and nothing
    is thrown. *)
Theorem run_negative_retries (r : t) (arg : jsval) (w : world) :
  maxRetries r < 0 ->
  run r arg w = (Normal VUndefined, w).
Proof.
  intros H. unfold run. apply run_loop_exit. lia.
Qed.

Lemma run_negative_retries_witness :
  run (Demo.runner Demo.always_fails (-1)) VUndefined Demo.idle_world
  = (Normal VUndefined, Demo.idle_world).
Proof.
  apply (run_negative_retries (Demo.runner Demo.always_fails (-1)) VUndefined
           Demo.idle_world).
  simpl. lia.
Defined.

(** Every invocation made by the loop passes the payload it was given. *)
Lemma run_loop_payload r payload m :
  forall a w,
    (Z.to_nat (maxRetries r + 1 - a) <= m)%nat ->
    exists evs,
      out (snd (run_loop r payload a w)) = out w ++ evs /\
      Forall (eq payload) (invoked evs).
Proof.
  induction m as [| m IH]; intros a w Hm; rewrite run_loop_unfold;
    destruct (Z.leb_spec a (maxRetries r));
    try lia;
    try (exists []; rewrite app_nil_r; split; [reflexivity | constructor]).
  unfold bind. rewrite loop_body_spec.
  destruct (attempt_outcome r (handler r (calls w) payload)) as [v | x |].
  - eexists. split; [reflexivity |]. observe. repeat constructor.
  - destruct (nullish x).
    + eexists. split; [reflexivity |]. observe. repeat constructor.
    + destruct (a + 1 >? maxRetries r).
      * eexists. split; [reflexivity |]. observe. repeat constructor.
      * destruct (IH (a + 1) (after_retry r payload (a + 1) x w) ltac:(lia))
          as (evs & Hout & Hall).
        rewrite Hout. cbn [out after_retry]. rewrite <- app_assoc.
        eexists. split; [reflexivity |]. observe.
        constructor; [reflexivity | exact Hall].
  - exists []. rewrite app_nil_r. split; [reflexivity | constructor].
Qed.

(** C8. Without explicit values the constructor sets [maxRetries = 3],
    [backoffMs = 2000] and [timeoutMs = 5000]; [run] called without an
    argument runs the loop with the payload [{}], which is what the
    handler is then invoked with. *)
Theorem constructor_and_run_defaults :
  (forall name h,
      constructor {| opt_jobName := name; opt_handler := h;
                     opt_maxRetries := None; opt_backoffMs := None;
                     opt_timeoutMs := None |}
      = {| jobName := name; handler := h;
           maxRetries := 3; backoffMs := 2000; timeoutMs := 5000 |}) /\
  (forall r w, run r VUndefined w = run_loop r (VObj []) 0 w) /\
  (forall r w, exists evs,
      out (snd (run r VUndefined w)) = out w ++ evs /\
      Forall (eq (VObj [])) (invoked evs)).
Proof.
  split; [reflexivity |]. split; [reflexivity |].
  intros r w. unfold run. cbn [default_param].
  apply (run_loop_payload r empty_object (Z.to_nat (maxRetries r + 1 - 0))).
  lia.
Qed.






End JobRunnerFacts.

(** * Properties of the dependency guard *)

Module ServerFacts.
Import Server ServerObs.

Lemma retryRequest_unfold A (fn : callable A) retries :
  retryRequest fn retries =
  try_catch (invoke fn)
    (fun err => if retries <=? 0 then throw err
                else wait 500 ;; retryRequest fn (retries - 1)).
Proof.
  rewrite retryRequest_equation_1. f_equal.
  destruct (retries <=? 0); reflexivity.
Qed.

Lemma retry_resolves A (fn : callable A) n w ms v :
  fn (invocations w) = Resolves ms v ->
  retryRequest fn n w = (Normal v, after_call ms w).
Proof.
  intros H. rewrite retryRequest_unfold. unfold try_catch, invoke.
  rewrite H. reflexivity.
Qed.

Lemma retry_hangs A (fn : callable A) n w :
  fn (invocations w) = Hangs ->
  exists w', retryRequest fn n w = (Stuck, w') /\ out w' = out w ++ [Called].
Proof.
  intros H. rewrite retryRequest_unfold. unfold try_catch, invoke.
  rewrite H. eexists. split; reflexivity.
Qed.

Lemma retry_rejects_last A (fn : callable A) n w ms e :
  n <= 0 ->
  fn (invocations w) = Rejects ms e ->
  retryRequest fn n w = (Thrown e, after_call ms w).
Proof.
  intros Hn H. rewrite retryRequest_unfold. unfold try_catch, invoke.
  rewrite H. destruct (Z.leb_spec n 0); [reflexivity | lia].
Qed.

Lemma retry_rejects_more A (fn : callable A) n w ms e :
  0 < n ->
  fn (invocations w) = Rejects ms e ->
  exists w',
    retryRequest fn n w = retryRequest fn (n - 1) w' /\
    invocations w' = S (invocations w) /\
    out w' = out w ++ [Called; Waited 500].
Proof.
  intros Hn H. rewrite retryRequest_unfold. unfold try_catch, invoke.
  rewrite H. destruct (Z.leb_spec n 0); [lia |].
  unfold bind, wait, bind, modify, emit, modify. cbn.
  eexists. split; [reflexivity |]. split; [reflexivity |].
  rewrite <- app_assoc. reflexivity.
Qed.

(** [j] rejected calls with retries left lead to the call with [j]
    retries fewer. *)
Lemma retry_failures A (fn : callable A) j :
  forall n w,
    Z.of_nat j <= n ->
    (forall i, (i < j)%nat -> rejects fn (invocations w + i)) ->
    exists w',
      retryRequest fn n w = retryRequest fn (n - Z.of_nat j) w' /\
      invocations w' = (invocations w + j)%nat /\
      out w' = out w ++ retry_prefix j.
Proof.
  induction j as [| j IH]; intros n w Hn Hrej.
  - exists w. rewrite Z.sub_0_r, Nat.add_0_r, app_nil_r. repeat split.
  - destruct (Hrej 0%nat ltac:(lia)) as (ms & e & He).
    rewrite Nat.add_0_r in He.
    destruct (retry_rejects_more A fn n w ms e ltac:(lia) He)
      as (w1 & Hrun1 & Hinv1 & Hout1).
    destruct (IH (n - 1) w1 ltac:(lia)) as (w2 & Hrun2 & Hinv2 & Hout2).
    { intros i Hi. rewrite Hinv1.
      replace (S (invocations w) + i)%nat with (invocations w + S i)%nat by lia.
      apply Hrej. lia. }
    exists w2. rewrite Hrun1, Hrun2, Hinv2, Hinv1, Hout2, Hout1.
    repeat split.
    + f_equal. lia.
    + lia.
    + rewrite <- app_assoc. reflexivity.
Qed.

(** Whatever [fn] does, at most [Z.to_nat n + 1] calls are made. *)
Lemma retry_bounded A (fn : callable A) k :
  forall n w,
    (Z.to_nat n <= k)%nat ->
    exists j,
      (j <= Z.to_nat n)%nat /\
      out (snd (retryRequest fn n w)) = out w ++ retry_trace j.
Proof.
  unfold retry_trace.
  induction k as [| k IH]; intros n w Hk;
    destruct (fn (invocations w)) as [ms v | ms e |] eqn:Hfn.
  - exists 0%nat. rewrite (retry_resolves A fn n w ms v Hfn).
    split; [lia | reflexivity].
  - exists 0%nat. rewrite (retry_rejects_last A fn n w ms e ltac:(lia) Hfn).
    split; [lia | reflexivity].
  - exists 0%nat. destruct (retry_hangs A fn n w Hfn) as (w' & Hrun & Hout).
    rewrite Hrun. split; [lia | exact Hout].
  - exists 0%nat. rewrite (retry_resolves A fn n w ms v Hfn).
    split; [lia | reflexivity].
  - destruct (Z.leb_spec n 0) as [Hn | Hn].
    + exists 0%nat. rewrite (retry_rejects_last A fn n w ms e Hn Hfn).
      split; [lia | reflexivity].
    + destruct (retry_rejects_more A fn n w ms e Hn Hfn)
        as (w1 & Hrun1 & Hinv1 & Hout1).
      destruct (IH (n - 1) w1 ltac:(lia)) as (j & Hj & Hout).
      exists (S j). rewrite Hrun1, Hout, Hout1, <- app_assoc.
      split; [lia | reflexivity].
  - exists 0%nat. destruct (retry_hangs A fn n w Hfn) as (w' & Hrun & Hout).
    rewrite Hrun. split; [lia | exact Hout].
Qed.

Lemma called_retry_trace j : called (retry_trace j) = S j.
Proof.
  unfold retry_trace, called.
  induction j as [| j IH]; [reflexivity |].
  cbn [retry_prefix app filter List.length]. rewrite IH. reflexivity.
Qed.

Lemma pauses_retry_trace j : pauses (retry_trace j) = repeat 500 j.
Proof.
  unfold retry_trace, pauses.
  induction j as [| j IH]; [reflexivity |].
  cbn [retry_prefix app flat_map repeat]. rewrite IH. reflexivity.
Qed.

(** The last call of [retryRequest]: no retry is left or the call does
    not reject. *)
Lemma retry_stop A (fn : callable A) n w :
  n <= 0 \/ ~ rejects fn (invocations w) ->
  retryRequest fn n w =
    (settled (fn (invocations w)),
     {| now := now w + duration (fn (invocations w));
        dependencyFailures := dependencyFailures w;
        circuitOpenUntil := circuitOpenUntil w;
        invocations := S (invocations w);
        out := out w ++ [Called] |}).
Proof.
  intros Hstop. rewrite retryRequest_unfold. unfold try_catch, invoke.
  destruct (fn (invocations w)) as [ms v | ms e |] eqn:Hfn; cbn.
  - reflexivity.
  - destruct (Z.leb_spec n 0) as [Hn | Hn]; [reflexivity |].
    destruct Hstop as [Hstop | Hstop]; [lia |].
    exfalso. apply Hstop. exists ms, e. exact Hfn.
  - rewrite Z.add_0_r. reflexivity.
Qed.

(** A rejected call with retries left: the pause, then the rest. *)
Lemma retry_go A (fn : callable A) n w ms e :
  0 < n ->
  fn (invocations w) = Rejects ms e ->
  retryRequest fn n w =
  retryRequest fn (n - 1)
    {| now := now w + ms + 500;
       dependencyFailures := dependencyFailures w;
       circuitOpenUntil := circuitOpenUntil w;
       invocations := S (invocations w);
       out := out w ++ [Called; Waited 500] |}.
Proof.
  intros Hn Hfn. rewrite retryRequest_unfold. unfold try_catch, invoke.
  rewrite Hfn. destruct (Z.leb_spec n 0); [lia |].
  unfold bind, wait, bind, modify, emit, modify. cbn.
  rewrite <- app_assoc. reflexivity.
Qed.

(** [retryRequest] in closed form: the calls number [0, ..., j] are made,
    the first [j] of them reject, and the outcome is that of call [j],
    which is the last one allowed or does not reject. *)
Lemma retry_shape A (fn : callable A) k :
  forall n w,
    (Z.to_nat n <= k)%nat ->
    exists j,
      (j <= Z.to_nat n)%nat /\
      (forall i, (i < j)%nat -> rejects fn (invocations w + i)) /\
      (j = Z.to_nat n \/ ~ rejects fn (invocations w + j)) /\
      retryRequest fn n w =
        (settled (fn (invocations w + j)%nat),
         {| now := now w + spent fn (invocations w) j + 500 * Z.of_nat j;
            dependencyFailures := dependencyFailures w;
            circuitOpenUntil := circuitOpenUntil w;
            invocations := (invocations w + S j)%nat;
            out := out w ++ retry_trace j |}).
Proof.
  unfold retry_trace.
  assert (Hstop : forall n w,
             n <= 0 \/ ~ rejects fn (invocations w) ->
             exists j,
               (j <= Z.to_nat n)%nat /\
               (forall i, (i < j)%nat -> rejects fn (invocations w + i)) /\
               (j = Z.to_nat n \/ ~ rejects fn (invocations w + j)) /\
               retryRequest fn n w =
                 (settled (fn (invocations w + j)%nat),
                  {| now := now w + spent fn (invocations w) j + 500 * Z.of_nat j;
                     dependencyFailures := dependencyFailures w;
                     circuitOpenUntil := circuitOpenUntil w;
                     invocations := (invocations w + S j)%nat;
                     out := out w ++ retry_prefix j ++ [Called] |})).
  { intros n w Hs. exists 0%nat. rewrite (retry_stop A fn n w Hs).
    rewrite !Nat.add_0_r. cbn [spent retry_prefix app Z.of_nat].
    repeat split; try lia.
    - destruct Hs as [Hs | Hs]; [left; lia | right; exact Hs].
    - do 2 f_equal; lia. }
  induction k as [| k IH]; intros n w Hk.
  - apply Hstop. left. lia.
  - destruct (Z.leb_spec n 0) as [Hn | Hn]; [apply Hstop; left; exact Hn |].
    destruct (fn (invocations w)) as [ms v | ms e |] eqn:Hfn.
    + apply Hstop. right. intros (ms' & e' & H). congruence.
    + rewrite (retry_go A fn n w ms e Hn Hfn).
      match goal with
      | |- context [retryRequest fn (n - 1) ?w1] =>
          destruct (IH (n - 1) w1 ltac:(lia)) as (j & Hj & Hrej & Hlast & Hrun)
      end.
      cbn [invocations now dependencyFailures circuitOpenUntil out] in *.
      exists (S j). rewrite Hrun.
      replace (invocations w + S j)%nat with (S (invocations w) + j)%nat by lia.
      repeat split; try lia.
      * intros i Hi. destruct i as [| i].
        -- rewrite Nat.add_0_r. exists ms, e. exact Hfn.
        -- replace (invocations w + S i)%nat with (S (invocations w) + i)%nat by lia.
           apply Hrej. lia.
      * destruct Hlast as [-> | Hlast]; [left; lia | right; exact Hlast].
      * cbn [spent retry_prefix app]. rewrite Hfn. cbn [duration].
        rewrite <- !app_assoc. cbn [app]. do 2 f_equal; lia.
    + apply Hstop. right. intros (ms' & e' & H). congruence.
Qed.

(** The call that decides the outcome is determined by the replies. *)
Lemma deciding_call A (fn : callable A) start limit j j' :
  (j <= limit)%nat ->
  (forall i, (i < j)%nat -> rejects fn (start + i)) ->
  j = limit \/ ~ rejects fn (start + j) ->
  (j' <= limit)%nat ->
  (forall i, (i < j')%nat -> rejects fn (start + i)) ->
  j' = limit \/ ~ rejects fn (start + j') ->
  j' = j.
Proof.
  intros Hj Hrej Hlast Hj' Hrej' Hlast'.
  destruct (Nat.lt_trichotomy j' j) as [Hlt | [Heq | Hgt]]; [| exact Heq |].
  - destruct Hlast' as [H | H]; [lia |]. exfalso. apply H, Hrej, Hlt.
  - destruct Hlast as [H | H]; [lia |]. exfalso. apply H, Hrej', Hgt.
Qed.

(** C10. [retryRequest fn n] with [n >= 0] calls [fn] at most [n+1]
    times, with a pause of exactly 500 ms between each call and the next
    and none elsewhere: a rejected call with retries left is followed,
    500 ms after it settled, by the same function with one retry less, and
    after [j+1] calls the clock stands at the start plus the time the
    calls took plus [500 * j].  If the calls before the [j]-th (counting
    from 0, [j <= n]) reject and that one resolves with [v], the result is
    [v], after [j+1] calls.  If all of the [n+1] calls reject, the error
    of the last one is thrown. *)
Theorem retryRequest_spec (A : Type) (fn : callable A) (n : Z) (w : world) :
  0 <= n ->
  (exists j,
      Z.of_nat j <= n /\
      snd (retryRequest fn n w) = after_retries fn j w /\
      now (snd (retryRequest fn n w))
      = now w + spent fn (invocations w) j + 500 * Z.of_nat j /\
      out (snd (retryRequest fn n w)) = out w ++ retry_trace j /\
      Z.of_nat (called (retry_trace j)) <= n + 1 /\
      pauses (retry_trace j) = repeat 500 j) /\
  (forall ms e,
      0 < n ->
      fn (invocations w) = Rejects ms e ->
      retryRequest fn n w =
      retryRequest fn (n - 1)
        {| now := now w + ms + 500;
           dependencyFailures := dependencyFailures w;
           circuitOpenUntil := circuitOpenUntil w;
           invocations := S (invocations w);
           out := out w ++ [Called; Waited 500] |}) /\
  (forall j ms v,
      Z.of_nat j <= n ->
      (forall i, (i < j)%nat -> rejects fn (invocations w + i)) ->
      fn (invocations w + j)%nat = Resolves ms v ->
      retryRequest fn n w = (Normal v, after_retries fn j w)) /\
  (forall ms e,
      (forall i, (i < Z.to_nat n)%nat -> rejects fn (invocations w + i)) ->
      fn (invocations w + Z.to_nat n)%nat = Rejects ms e ->
      retryRequest fn n w = (Thrown e, after_retries fn (Z.to_nat n) w)).
Proof.
  intros Hn.
  destruct (retry_shape A fn (Z.to_nat n) n w (le_n _))
    as (j & Hj & Hrej & Hlast & Hrun).
  fold (after_retries fn j w) in Hrun.
  split; [| split; [| split]].
  - exists j. rewrite Hrun, called_retry_trace, pauses_retry_trace.
    cbn [snd now out after_retries]. repeat split; lia.
  - intros ms e Hpos Hfn. exact (retry_go A fn n w ms e Hpos Hfn).
  - intros j' ms v Hj' Hrej' Hres.
    assert (j = j') as ->.
    { apply (deciding_call A fn (invocations w) (Z.to_nat n)).
      - lia.
      - exact Hrej'.
      - right. intros (ms' & e' & H). congruence.
      - exact Hj.
      - exact Hrej.
      - exact Hlast. }
    rewrite Hrun, Hres. reflexivity.
  - intros ms e Hrej' Hres.
    assert (j = Z.to_nat n) as ->.
    { apply (deciding_call A fn (invocations w) (Z.to_nat n)).
      - lia.
      - exact Hrej'.
      - left. reflexivity.
      - exact Hj.
      - exact Hrej.
      - exact Hlast. }
    rewrite Hrun, Hres. reflexivity.
Qed.

Lemma retryRequest_spec_witness :
  retryRequest (Demo.flaky 14) 2 Demo.strained
  = (Normal (VNum 7),
     {| now := 1000 + (30 + 30 + 40) + 500 * 2; dependencyFailures := 4;
        circuitOpenUntil := None; invocations := 15;
        out := [Called; Waited 500; Called; Waited 500; Called] |}) /\
  retryRequest (Demo.flaky 20) 2 Demo.strained
  = (Thrown Demo.boom,
     {| now := 1000 + (30 + 30 + 30) + 500 * 2; dependencyFailures := 4;
        circuitOpenUntil := None; invocations := 15;
        out := [Called; Waited 500; Called; Waited 500; Called] |}).
Proof.
  split.
  - destruct (retryRequest_spec jsval (Demo.flaky 14) 2 Demo.strained)
      as (_ & _ & Hfirst & _); [lia |].
    apply (Hfirst 2%nat 40 (VNum 7)).
    + simpl. lia.
    + intros i Hi. exists 30, Demo.boom.
      destruct i as [| [| i]]; [reflexivity | reflexivity | lia].
    + reflexivity.
  - destruct (retryRequest_spec jsval (Demo.flaky 20) 2 Demo.strained)
      as (_ & _ & _ & Hall); [lia |].
    apply (Hall 30 Demo.boom).
    + intros i Hi. exists 30, Demo.boom.
      destruct i as [| [| i]]; [reflexivity | reflexivity | simpl in Hi; lia].
    + reflexivity.
Defined.

(** *** The circuit breaker *)

Lemma recordFailure_spec w :
  recordFailure w =
    (Normal tt,
     if dependencyFailures w + 1 >=? 5 then
       {| now := now w;
          dependencyFailures := dependencyFailures w + 1;
          circuitOpenUntil := Some (now w + 60 * 1000);
          invocations := invocations w;
          out := out w ++ [Logger (Critical "Circuit breaker opened for dependency")] |}
     else
       {| now := now w;
          dependencyFailures := dependencyFailures w + 1;
          circuitOpenUntil := circuitOpenUntil w;
          invocations := invocations w;
          out := out w |}).
Proof.
  unfold recordFailure, bind, modify, gets, emit, modify, ret. cbn.
  destruct (dependencyFailures w + 1 >=? 5); reflexivity.
Qed.

(** With the circuit open, [callDependency] logs a warning and returns
    the fallback; nothing else changes. *)
Lemma callDependency_open request cfg arg w :
  circuit_open w = true ->
  callDependency request cfg arg w =
    (Normal (default_param arg VNull),
     {| now := now w;
        dependencyFailures := dependencyFailures w;
        circuitOpenUntil := circuitOpenUntil w;
        invocations := invocations w;
        out := out w ++ [Logger (Warn "Dependency circuit open – serving fallback")] |}).
Proof.
  intros Hopen. unfold callDependency, bind, isCircuitOpen, gets.
  rewrite Hopen. reflexivity.
Qed.

(** While the clock stays below a non-zero [circuitOpenUntil], no
    activity calls the dependency, and every call gets its fallback. *)
Lemma perform_while_open request acts :
  forall w until,
    circuitOpenUntil w = Some until ->
    until <> 0 ->
    Forall forward acts ->
    now w + elapsed acts < until ->
    fst (perform request acts w) = fallbacks acts /\
    invocations (snd (perform request acts w)) = invocations w /\
    called (out (snd (perform request acts w))) = called (out w).
Proof.
  induction acts as [| a acts IH]; intros w until Hu Hnz Hfw Hlt.
  - repeat split.
  - inversion Hfw as [| ? ? Ha Hrest]; subst.
    destruct a as [ms | cfg arg]; cbn [perform perform1 elapsed forward] in *.
    + specialize (IH (advance ms w) until Hu Hnz Hrest).
      cbn [advance now] in IH. specialize (IH ltac:(lia)).
      destruct (perform request acts (advance ms w)) as [cs w'].
      cbn [fst snd fallbacks flat_map app] in *. exact IH.
    + assert (Hopen : circuit_open w = true).
      { unfold circuit_open, truthy. rewrite Hu.
        apply andb_true_iff. split.
        - apply negb_true_iff, Z.eqb_neq. exact Hnz.
        - apply Z.ltb_lt.
          assert (0 <= elapsed acts).
          { clear - Hrest. induction Hrest as [| [ms |] ? ? ? IH'];
              cbn [elapsed forward] in *; lia. }
          lia. }
      rewrite (callDependency_open request cfg arg w Hopen).
      match goal with
      | |- context [perform request acts ?w1] =>
          specialize (IH w1 until Hu Hnz Hrest Hlt);
          destruct (perform request acts w1) as [cs w']
      end.
      cbn [fst snd fallbacks flat_map app invocations out] in *.
      destruct IH as (Hcs & Hinv & Hcalled).
      rewrite Hcs, Hinv, Hcalled. repeat split.
      unfold called. rewrite filter_app, length_app. cbn. lia.
Qed.

(** [callDependency] with the circuit closed, in closed form. *)
Lemma callDependency_closed request cfg arg w :
  circuit_open w = false ->
  exists j,
    (j <= 2)%nat /\
    (forall i, (i < j)%nat -> rejects (request cfg) (invocations w + i)) /\
    (j = 2%nat \/ ~ rejects (request cfg) (invocations w + j)) /\
    let w1 := after_retries (request cfg) j w in
    callDependency request cfg arg w =
    match request cfg (invocations w + j)%nat with
    | Resolves _ resp =>
        (Normal (data resp),
         {| now := now w1; dependencyFailures := 0; circuitOpenUntil := None;
            invocations := invocations w1; out := out w1 |})
    | Rejects _ e =>
        (Normal (default_param arg VNull),
         if dependencyFailures w + 1 >=? 5 then
           {| now := now w1;
              dependencyFailures := dependencyFailures w + 1;
              circuitOpenUntil := Some (now w1 + 60 * 1000);
              invocations := invocations w1;
              out := out w1
                     ++ [Logger (Critical "Circuit breaker opened for dependency");
                         failure_line cfg e] |}
         else
           {| now := now w1;
              dependencyFailures := dependencyFailures w + 1;
              circuitOpenUntil := circuitOpenUntil w;
              invocations := invocations w1;
              out := out w1 ++ [failure_line cfg e] |})
    | Hangs => (Stuck, w1)
    end.
Proof.
  intros Hclosed.
  destruct (retry_shape response (request cfg) 2 2 w ltac:(lia))
    as (j & Hj & Hrej & Hlast & Hrun).
  exists j. split; [lia |]. split; [exact Hrej |]. split.
  - destruct Hlast as [-> | Hlast]; [left; reflexivity | right; exact Hlast].
  - cbv zeta. unfold callDependency, bind, isCircuitOpen, gets, try_catch.
    rewrite Hclosed, Hrun. unfold settled, after_retries.
    destruct (request cfg (invocations w + j)%nat) as [ms resp | ms e |].
    + reflexivity.
    + rewrite recordFailure_spec.
      cbn [dependencyFailures now circuitOpenUntil invocations out].
      unfold failure_line, emit, modify, ret.
      destruct (dependencyFailures w + 1 >=? 5); cbn;
        rewrite <- ?app_assoc; reflexivity.
    + reflexivity.
Qed.

(** *** Calls in flight together *)

Lemma called_app l1 l2 : called (l1 ++ l2) = (called l1 + called l2)%nat.
Proof. unfold called. rewrite filter_app, length_app. reflexivity. Qed.

Lemma open_until w until :
  circuitOpenUntil w = Some until -> until <> 0 -> now w < until ->
  circuit_open w = true.
Proof.
  intros Hu Hnz Hlt. unfold circuit_open, truthy. rewrite Hu.
  apply andb_true_iff. split.
  - apply negb_true_iff, Z.eqb_neq. exact Hnz.
  - apply Z.ltb_lt. exact Hlt.
Qed.

Lemma ticks_onward steps : Forall Overlap.onward steps -> 0 <= Overlap.ticks steps.
Proof.
  induction 1 as [| a rest Ha _ IH]; cbn [Overlap.ticks]; [lia |].
  destruct a; cbn [Overlap.onward] in Ha; lia.
Qed.

(** A call that starts while the circuit is open has returned its
    fallback when it leaves the turn, and no request has left. *)
Lemma enter_open cfg arg s :
  circuit_open (Overlap.shared s) = true ->
  Overlap.enter cfg arg s =
    {| Overlap.shared :=
         {| now := now (Overlap.shared s);
            dependencyFailures := dependencyFailures (Overlap.shared s);
            circuitOpenUntil := circuitOpenUntil (Overlap.shared s);
            invocations := invocations (Overlap.shared s);
            out := out (Overlap.shared s)
                   ++ [Logger (Warn "Dependency circuit open – serving fallback")] |};
       Overlap.flight :=
         Overlap.flight s
         ++ [{| Overlap.target := cfg;
                Overlap.fallback := default_param arg VNull;
                Overlap.stands := Overlap.Returned (default_param arg VNull) |}] |}.
Proof.
  intros Hopen. unfold Overlap.enter. rewrite Hopen. reflexivity.
Qed.

(** Replies and timers do nothing to a call that has returned. *)
Lemma settled_ignores s id :
  Overlap.quiet s ->
  (forall answer, Overlap.reply_to id answer s = s) /\ Overlap.resume id s = s.
Proof.
  intros Hq. unfold Overlap.reply_to, Overlap.resume.
  destruct (nth_error (Overlap.flight s) id) as [c |] eqn:Hc;
    [| split; reflexivity].
  apply nth_error_In in Hc.
  destruct (proj1 (Forall_forall _ _) Hq c Hc) as [v Hv]. rewrite Hv.
  split; [intros [resp | err] |]; reflexivity.
Qed.

(** While the clock stays below a non-zero [circuitOpenUntil] and no call
    is in flight, no step sends a request, and every call that starts
    has returned its fallback. *)
Lemma quiet_window steps :
  forall s until,
    Overlap.quiet s ->
    circuitOpenUntil (Overlap.shared s) = Some until ->
    until <> 0 ->
    Forall Overlap.onward steps ->
    now (Overlap.shared s) + Overlap.ticks steps < until ->
    let s' := Overlap.exec_all steps s in
    invocations (Overlap.shared s') = invocations (Overlap.shared s) /\
    called (out (Overlap.shared s')) = called (out (Overlap.shared s)) /\
    Overlap.stages s'
    = Overlap.stages s ++ map Overlap.Returned (Overlap.entered steps).
Proof.
  unfold Overlap.exec_all, Overlap.stages.
  induction steps as [| a steps IH]; intros s until Hq Hu Hnz Hon Hlt.
  - cbn. rewrite app_nil_r. repeat split.
  - inversion Hon as [| ? ? Ha Hrest]; subst.
    pose proof (ticks_onward steps Hrest) as Hpos.
    cbn [fold_left]. cbv zeta.
    destruct a as [ms | cfg arg | id answer | id];
      cbn [Overlap.exec Overlap.ticks Overlap.onward Overlap.entered flat_map] in *.
    + destruct (IH {| Overlap.shared := advance ms (Overlap.shared s);
                      Overlap.flight := Overlap.flight s |} until)
        as (Hinv & Hcalled & Hst); try assumption.
      * cbn [Overlap.shared advance now]. lia.
      * cbn [Overlap.shared Overlap.flight advance invocations out] in *.
        repeat split; assumption.
    + rewrite (enter_open cfg arg s (open_until _ until Hu Hnz ltac:(lia))).
      match goal with
      | |- context [fold_left _ steps ?s1] =>
          destruct (IH s1 until) as (Hinv & Hcalled & Hst)
      end; try assumption.
      * unfold Overlap.quiet. cbn [Overlap.flight]. apply Forall_app.
        split; [exact Hq |]. repeat constructor. eexists. reflexivity.
      * cbn [Overlap.shared Overlap.flight invocations out] in *.
        rewrite Hinv, Hcalled, Hst, called_app, map_app, <- app_assoc.
        repeat split. cbn. lia.
    + rewrite (proj1 (settled_ignores s id Hq) answer).
      apply (IH s until); assumption.
    + rewrite (proj2 (settled_ignores s id Hq)).
      apply (IH s until); assumption.
Qed.


Lemma place_middle (before : list Overlap.call) c c' after :
  nth_error (before ++ c :: after) (List.length before) = Some c /\
  Overlap.place (List.length before) c' (before ++ c :: after)
  = before ++ c' :: after.
Proof.
  unfold Overlap.place.
  induction before as [| b before [IHn IHp]]; [split; reflexivity |].
  cbn [List.length List.app nth_error firstn skipn] in *.
  split; [exact IHn |]. f_equal. exact IHp.
Qed.

(** The failure of a call that has no retry left. *)
Lemma reply_failure s before c after retries e :
  Overlap.flight s = before ++ c :: after ->
  Overlap.stands c = Overlap.Requesting retries ->
  retries <= 0 ->
  Overlap.reply_to (List.length before) (inr e) s =
    {| Overlap.shared :=
         snd (emit (failure_line (Overlap.target c) e)
                (snd (recordFailure (Overlap.shared s))));
       Overlap.flight :=
         before
         ++ Overlap.moved c (Overlap.Returned (Overlap.fallback c)) :: after |}.
Proof.
  intros Hf Hc Hr. unfold Overlap.reply_to. rewrite Hf.
  destruct (place_middle before c
              (Overlap.moved c (Overlap.Returned (Overlap.fallback c))) after)
    as [-> ->].
  rewrite Hc. destruct (Z.leb_spec retries 0); [| lia].
  unfold bind. rewrite recordFailure_spec. reflexivity.
Qed.

(** C7, as the code has it.  (1) In every state in which the circuit is
    open, a call of [callDependency] that starts returns the fallback
    without calling the dependency, whatever other calls are in flight.
    (2) A recorded failure opens the circuit until 60 seconds later as
    soon as the counter reaches 5, and only counts below that; so,
    starting from a reset counter, the circuit is still closed after four
    failures in a row and open after the fifth.  (3) From a failure that
    reaches the threshold on, when the call that failed was the only one
    in flight, no call of the dependency is made by anything that happens
    within the next 60 seconds: each call that starts returns its
    fallback.  The same holds of calls made one after the other.  (4) A
    recorded success resets the counter to 0 and closes the circuit. *)
Theorem circuit_breaker (request : config -> callable response) :
  (forall cfg arg w,
      circuit_open w = true ->
      fst (callDependency request cfg arg w) = Normal (default_param arg VNull) /\
      invocations (snd (callDependency request cfg arg w)) = invocations w /\
      called (out (snd (callDependency request cfg arg w))) = called (out w)) /\
  (forall cfg arg s,
      circuit_open (Overlap.shared s) = true ->
      invocations (Overlap.shared (Overlap.exec (Overlap.Enter cfg arg) s))
      = invocations (Overlap.shared s) /\
      called (out (Overlap.shared (Overlap.exec (Overlap.Enter cfg arg) s)))
      = called (out (Overlap.shared s)) /\
      Overlap.stages (Overlap.exec (Overlap.Enter cfg arg) s)
      = Overlap.stages s ++ [Overlap.Returned (default_param arg VNull)]) /\
  (forall w,
      fst (recordFailure w) = Normal tt /\
      dependencyFailures (snd (recordFailure w)) = dependencyFailures w + 1 /\
      circuitOpenUntil (snd (recordFailure w))
      = if dependencyFailures w + 1 >=? 5 then Some (now w + 60000)
        else circuitOpenUntil w) /\
  (forall w,
      dependencyFailures w = 0 ->
      circuitOpenUntil w = None ->
      circuit_open (Nat.iter 4 (fun w' => snd (recordFailure w')) w) = false /\
      circuitOpenUntil (Nat.iter 5 (fun w' => snd (recordFailure w')) w)
      = Some (now w + 60000)) /\
  (forall s before c after retries e steps,
      Overlap.flight s = before ++ c :: after ->
      Overlap.stands c = Overlap.Requesting retries ->
      retries <= 0 ->
      Forall Overlap.settled_call before ->
      Forall Overlap.settled_call after ->
      0 <= now (Overlap.shared s) ->
      5 <= dependencyFailures (Overlap.shared s) + 1 ->
      Forall Overlap.onward steps ->
      Overlap.ticks steps < 60000 ->
      let opened := Overlap.exec (Overlap.Reply (List.length before) (inr e)) s in
      let s' := Overlap.exec_all steps opened in
      circuitOpenUntil (Overlap.shared opened)
      = Some (now (Overlap.shared s) + 60000) /\
      invocations (Overlap.shared s') = invocations (Overlap.shared s) /\
      called (out (Overlap.shared s')) = called (out (Overlap.shared s)) /\
      Overlap.stages s'
      = Overlap.stages opened ++ map Overlap.Returned (Overlap.entered steps)) /\
  (forall w acts,
      0 <= now w ->
      5 <= dependencyFailures w + 1 ->
      Forall forward acts ->
      elapsed acts < 60000 ->
      fst (perform request acts (snd (recordFailure w))) = fallbacks acts /\
      invocations (snd (perform request acts (snd (recordFailure w))))
      = invocations w /\
      called (out (snd (perform request acts (snd (recordFailure w)))))
      = called (out w)) /\
  (forall w,
      fst (recordSuccess w) = Normal tt /\
      dependencyFailures (snd (recordSuccess w)) = 0 /\
      circuitOpenUntil (snd (recordSuccess w)) = None /\
      circuit_open (snd (recordSuccess w)) = false).
Proof.
  split; [| split; [| split; [| split; [| split; [| split]]]]].
  - intros cfg arg w Hopen. rewrite (callDependency_open request cfg arg w Hopen).
    cbn [fst snd invocations out]. repeat split.
    rewrite called_app. cbn. lia.
  - intros cfg arg s Hopen. cbn [Overlap.exec].
    rewrite (enter_open cfg arg s Hopen). unfold Overlap.stages.
    cbn [Overlap.shared Overlap.flight invocations out].
    rewrite called_app, map_app. repeat split. cbn. lia.
  - intros w. rewrite recordFailure_spec. cbn [fst snd].
    destruct (dependencyFailures w + 1 >=? 5); repeat split.
  - intros [t failures until calls log] Hzero Hclosed. cbn in Hzero, Hclosed.
    subst failures until. split; reflexivity.
  - intros s before c after retries e steps Hf Hc Hr Hb Ha Hnow Hfive Hon Hlt.
    cbv zeta. cbn [Overlap.exec].
    rewrite (reply_failure s before c after retries e Hf Hc Hr).
    rewrite recordFailure_spec. cbn [snd].
    destruct (Z.geb_spec (dependencyFailures (Overlap.shared s) + 1) 5); [| lia].
    match goal with
    | |- context [Overlap.exec_all steps ?s1] =>
        destruct (quiet_window steps s1 (now (Overlap.shared s) + 60 * 1000))
          as (Hinv & Hcalled & Hst)
    end; try assumption; try reflexivity.
    + unfold Overlap.quiet. cbn [Overlap.flight]. apply Forall_app.
      split; [exact Hb |]. constructor; [| exact Ha]. eexists. reflexivity.
    + lia.
    + unfold emit, modify. cbn [Overlap.shared now snd]. lia.
    + cbv zeta in Hinv, Hcalled, Hst. rewrite Hinv, Hcalled, Hst.
      unfold Overlap.stages, emit, modify.
      cbn [Overlap.shared Overlap.flight invocations out circuitOpenUntil snd].
      rewrite !called_app. repeat split. cbn. lia.
  - intros w acts Hnow Hfive Hfw Hel. rewrite recordFailure_spec. cbn [snd].
    destruct (Z.geb_spec (dependencyFailures w + 1) 5); [| lia].
    match goal with
    | |- context [perform request acts ?w1] =>
        destruct (perform_while_open request acts w1 (now w + 60 * 1000))
          as (Hcs & Hinv & Hcalled)
    end; try assumption; try reflexivity; cbn [now]; try lia.
    rewrite Hcs, Hinv, Hcalled. cbn [invocations out]. repeat split.
    rewrite called_app. cbn. lia.
  - intros w. repeat split.
Qed.

Lemma circuit_breaker_witness :
  circuit_open (snd (recordFailure Demo.strained)) = true /\
  fst (callDependency Demo.down Demo.endpoint (VStr "cached")
         (snd (recordFailure Demo.strained))) = Normal (VStr "cached") /\
  invocations
    (Overlap.shared
       (Overlap.exec_all
          [Overlap.Enter Demo.endpoint VUndefined; Overlap.Tick 59999;
           Overlap.Resume 0; Overlap.Enter Demo.endpoint (VStr "cached")]
          (Overlap.exec (Overlap.Reply 0 (inr Demo.boom)) Samples.last_try)))
  = invocations Demo.strained /\
  invocations
    (snd (perform Demo.down
            [CallDependency Demo.endpoint VUndefined; Elapse 59999;
             CallDependency Demo.endpoint (VStr "cached")]
            (snd (recordFailure Demo.strained))))
  = invocations Demo.strained.
Proof.
  destruct (circuit_breaker Demo.down)
    as (Hopen & _ & _ & _ & Hflight & Hwindow & _).
  split; [reflexivity |]. split; [| split].
  - apply (Hopen Demo.endpoint (VStr "cached") (snd (recordFailure Demo.strained))).
    reflexivity.
  - assert (Hon : Forall Overlap.onward
                    [Overlap.Enter Demo.endpoint VUndefined; Overlap.Tick 59999;
                     Overlap.Resume 0; Overlap.Enter Demo.endpoint (VStr "cached")]).
    { repeat constructor. simpl. lia. }
    destruct (Hflight Samples.last_try [] Samples.last_request [] 0 Demo.boom
                [Overlap.Enter Demo.endpoint VUndefined; Overlap.Tick 59999;
                 Overlap.Resume 0; Overlap.Enter Demo.endpoint (VStr "cached")]
                eq_refl eq_refl ltac:(lia) (Forall_nil _) (Forall_nil _)
                ltac:(simpl; lia) ltac:(simpl; lia) Hon ltac:(simpl; lia))
      as (_ & Hinv & _).
    exact Hinv.
  - apply (Hwindow Demo.strained
             [CallDependency Demo.endpoint VUndefined; Elapse 59999;
              CallDependency Demo.endpoint (VStr "cached")]).
    + simpl. lia.
    + simpl. lia.
    + repeat constructor. simpl. lia.
    + simpl. lia.
Defined.

(** C7 as stated fails when calls overlap.  On a server that has seen
    four failures two calls start; the second fails for good while the
    request of the first is unanswered, and opens the circuit until
    62000.  The first call is still in flight: when its request fails it
    pauses and, at 2500, sends another request although the circuit is
    open; and when its request succeeds instead, the circuit is closed at
    2000 and the next call that starts goes through to the dependency. *)
Lemma request_during_cooldown :
  circuitOpenUntil (Overlap.shared Samples.crowded) = Some 62000 /\
  now (Overlap.shared Samples.crowded) = 2000 /\
  circuit_open (Overlap.shared Samples.crowded) = true /\
  circuit_open
    (Overlap.shared
       (Overlap.exec_all [Overlap.Reply 0 (inr Demo.boom); Overlap.Tick 500]
          Samples.crowded)) = true /\
  invocations
    (Overlap.shared
       (Overlap.exec_all
          [Overlap.Reply 0 (inr Demo.boom); Overlap.Tick 500; Overlap.Resume 0]
          Samples.crowded))
  = S (invocations (Overlap.shared Samples.crowded)) /\
  circuit_open
    (Overlap.shared
       (Overlap.exec (Overlap.Reply 0 (inl {| data := VNum 7 |}))
          Samples.crowded)) = false /\
  invocations
    (Overlap.shared
       (Overlap.exec_all
          [Overlap.Reply 0 (inl {| data := VNum 7 |});
           Overlap.Enter Demo.endpoint VNull]
          Samples.crowded))
  = S (invocations (Overlap.shared Samples.crowded)).
Proof.
  repeat split.
Qed.


End ServerFacts.

(** * Further properties of the job runner *)

Module JobRunnerMore.
Import JobRunner JobRunnerObs JobRunnerFacts.

(** Reasoning by cases on the turns of the loop. *)
Lemma run_loop_cases r payload
    (P : Z -> world -> completion thrown jsval * world -> Prop) :
  (forall a w, maxRetries r < a -> P a w (Normal VUndefined, w)) ->
  (forall a w v,
      a <= maxRetries r ->
      attempt_outcome r (handler r (calls w) payload) = Normal v ->
      P a w (Normal v, after_success r payload (a + 1) w)) ->
  (forall a w x,
      a <= maxRetries r ->
      attempt_outcome r (handler r (calls w) payload) = Thrown x ->
      nullish x = true ->
      P a w (Thrown (ErrorObject (cannot_read_message x)),
             after_attempt r payload (a + 1) w)) ->
  (forall a w x,
      a = maxRetries r ->
      fails_with r (handler r (calls w) payload) x ->
      P a w (Thrown x, after_exhausted r payload (a + 1) x w)) ->
  (forall a w x res,
      a < maxRetries r ->
      fails_with r (handler r (calls w) payload) x ->
      P (a + 1) (after_retry r payload (a + 1) x w) res ->
      P a w res) ->
  forall a w, P a w (run_loop r payload a w).
Proof.
  intros Hexit Hok Hunread Hdead Hretry a w.
  remember (Z.to_nat (maxRetries r + 1 - a)) as m eqn:Hm.
  revert a w Hm.
  induction m as [| m IH]; intros a w Hm; rewrite run_loop_unfold;
    destruct (Z.leb_spec a (maxRetries r)) as [Hle | Hgt];
    try lia; try (apply Hexit; assumption).
  unfold bind. rewrite loop_body_spec.
  destruct (attempt_outcome r (handler r (calls w) payload)) as [v | x |] eqn:Hout.
  - apply Hok; assumption.
  - destruct (nullish x) eqn:Hx.
    + apply Hunread; assumption.
    + destruct (Z.gtb_spec (a + 1) (maxRetries r)).
      * apply Hdead; [lia | split; assumption].
      * apply (Hretry a w x); [lia | split; assumption |].
        apply IH. lia.
  - exfalso. exact (attempt_outcome_settles _ _ Hout).
Qed.

Lemma succeeded_app l1 l2 : succeeded (l1 ++ l2) = succeeded l1 ++ succeeded l2.
Proof. apply flat_map_app. Qed.

Lemma failed_app l1 l2 : failed (l1 ++ l2) = failed l1 ++ failed l2.
Proof. apply flat_map_app. Qed.

Lemma timer_delays_app l1 l2 :
  timer_delays (l1 ++ l2) = timer_delays l1 ++ timer_delays l2.
Proof. apply flat_map_app. Qed.

Lemma timers_after_app l1 : forall n l2,
  timers_after n (l1 ++ l2) =
  match timers_after n l1 with
  | Some m => timers_after m l2
  | None => None
  end.
Proof.
  induction l1 as [| ev l1 IH]; intros n l2; [reflexivity |].
  destruct ev as [l | p | ms | | ms]; cbn [List.app timers_after]; try apply IH.
  destruct n; [reflexivity | apply IH].
Qed.

(** An attempt sets at most one timer, with delay [timeoutMs], and clears
    it before it ends. *)
Lemma timers_after_attempt r payload a b n :
  timers_after n (attempt_log r payload a b) = Some n.
Proof. destruct b; reflexivity. Qed.

Lemma timer_delays_attempt r payload a b :
  Forall (eq (timeoutMs r)) (timer_delays (attempt_log r payload a b)).
Proof. destruct b; repeat constructor. Qed.

Lemma succeeded_attempt_log r payload a b :
  succeeded (attempt_log r payload a b) = [].
Proof. destruct b; reflexivity. Qed.

Lemma failed_attempt_log r payload a b :
  failed (attempt_log r payload a b) = [].
Proof. destruct b; reflexivity. Qed.

Lemma started_attempt_log r payload a b :
  started (attempt_log r payload a b) = [a].
Proof. destruct b; reflexivity. Qed.

Lemma invoked_attempt_log r payload a b :
  invoked (attempt_log r payload a b) = [payload].
Proof. destruct b; reflexivity. Qed.

Lemma backoffs_attempt_log r payload a b :
  backoffs (attempt_log r payload a b) = [].
Proof. destruct b; reflexivity. Qed.

Lemma dead_letters_attempt_log r payload a b :
  dead_letters (attempt_log r payload a b) = [].
Proof. destruct b; reflexivity. Qed.

(** The observations of a turn. *)
Ltac tally :=
  rewrite ?started_app, ?invoked_app, ?backoffs_app, ?dead_letters_app,
    ?failed_app, ?succeeded_app,
    ?started_attempt_log, ?invoked_attempt_log, ?backoffs_attempt_log,
    ?dead_letters_attempt_log, ?failed_attempt_log, ?succeeded_attempt_log;
  cbn [started invoked backoffs dead_letters failed succeeded flat_map List.app].





Lemma run_loop_attempts_bounded r payload :
  forall a w,
    exists evs,
      out (snd (run_loop r payload a w)) = out w ++ evs /\
      Z.of_nat (List.length (invoked evs)) <= Z.max 0 (maxRetries r + 1 - a) /\
      calls (snd (run_loop r payload a w))
      = (calls w + List.length (invoked evs))%nat /\
      started evs = attempts_from a (List.length (invoked evs)).
Proof.
  apply (run_loop_cases r payload
           (fun a w res =>
              exists evs,
                out (snd res) = out w ++ evs /\
                Z.of_nat (List.length (invoked evs))
                <= Z.max 0 (maxRetries r + 1 - a) /\
                calls (snd res) = (calls w + List.length (invoked evs))%nat /\
                started evs = attempts_from a (List.length (invoked evs)))).
  - intros a w Ha. exists []. cbn. rewrite app_nil_r. repeat split; lia.
  - intros a w v Ha Hv. eexists. split; [reflexivity |].
    tally. cbn [List.length snd after_success calls].
    repeat split; try lia; reflexivity.
  - intros a w x Ha Hx Hnull. eexists. split; [reflexivity |].
    tally. cbn [List.length snd after_attempt calls].
    repeat split; try lia; reflexivity.
  - intros a w x Ha Hx. eexists. split; [reflexivity |].
    tally. cbn [List.length snd after_exhausted calls].
    repeat split; try lia; reflexivity.
  - intros a w x res Ha Hx (evs & Hout & Hlen & Hcalls & Hstart).
    rewrite Hout. cbn [after_retry out] in *. rewrite <- app_assoc.
    eexists. split; [reflexivity |].
    tally. cbn [List.length].
    rewrite Hcalls, Hstart, attempts_from_S. cbn [after_retry calls].
    repeat split; try lia.
Qed.

(** X1. Whatever the handler does, [run] invokes it at most
    [maxRetries + 1] times (not at all when that is negative), once in each
    attempt it starts, and the attempts are numbered 1, 2, ... without a
    gap. *)
Theorem run_attempts_bounded (r : t) (arg : jsval) (w : world) :
  exists evs,
    out (snd (run r arg w)) = out w ++ evs /\
    Z.of_nat (List.length (invoked evs)) <= Z.max 0 (maxRetries r + 1) /\
    calls (snd (run r arg w)) = (calls w + List.length (invoked evs))%nat /\
    started evs = attempts_from 0 (List.length (invoked evs)).
Proof.
  unfold run.
  destruct (run_loop_attempts_bounded r (default_param arg empty_object) 0 w)
    as (evs & Hout & Hlen & Hcalls & Hstart).
  exists evs. rewrite Z.sub_0_r in Hlen. repeat split; assumption.
Qed.

Ltac turn := eexists; split; [reflexivity |]; tally.

Lemma run_loop_outcome r payload :
  forall a w,
    exists evs,
      out (snd (run_loop r payload a w)) = out w ++ evs /\
      match fst (run_loop r payload a w) with
      | Normal v =>
          dead_letters evs = [] /\
          (a <= maxRetries r ->
           attempt_outcome r
             (handler r (pred (calls (snd (run_loop r payload a w)))) payload)
           = Normal v)
      | Thrown x =>
          exists y,
            attempt_outcome r
              (handler r (pred (calls (snd (run_loop r payload a w)))) payload)
            = Thrown y /\
            if nullish y then
              x = ErrorObject (cannot_read_message y) /\ dead_letters evs = []
            else
              x = y /\ dead_letters evs = [(message_value y, payload)]
      | Stuck => False
      end.
Proof.
  apply (run_loop_cases r payload
           (fun a w res =>
              exists evs,
                out (snd res) = out w ++ evs /\
                match fst res with
                | Normal v =>
                    dead_letters evs = [] /\
                    (a <= maxRetries r ->
                     attempt_outcome r (handler r (pred (calls (snd res))) payload)
                     = Normal v)
                | Thrown x =>
                    exists y,
                      attempt_outcome r (handler r (pred (calls (snd res))) payload)
                      = Thrown y /\
                      if nullish y then
                        x = ErrorObject (cannot_read_message y) /\
                        dead_letters evs = []
                      else
                        x = y /\ dead_letters evs = [(message_value y, payload)]
                | Stuck => False
                end)).
  - intros a w Ha. exists []. cbn. rewrite app_nil_r.
    repeat split. lia.
  - intros a w v Ha Hv. turn. cbn [fst snd calls after_success pred].
    split; [reflexivity | intros _; exact Hv].
  - intros a w x Ha Hx Hnull. turn. cbn [fst snd calls after_attempt pred].
    exists x. rewrite Hnull. repeat split. exact Hx.
  - intros a w x Ha [Hx Hread]. turn. cbn [fst snd calls after_exhausted pred].
    exists x. rewrite Hread. repeat split. exact Hx.
  - intros a w x res Ha Hx (evs & Hout & Hres).
    rewrite Hout. cbn [after_retry out]. rewrite <- app_assoc.
    turn. destruct (fst res) as [v | x' |]; [| exact Hres | exact Hres].
    destruct Hres as [Hd Hlast]. split; [exact Hd |].
    intros _. apply Hlast. lia.
Qed.

(** X2. How a run ends is decided by its last attempt.  A returned value
    comes with no dead letter and, when [maxRetries >= 0], is the value of
    the attempt made last.  When [run] throws, the attempt made last
    failed, with some [y]: if [y] is undefined or null, what is thrown is
    the [TypeError] of reading [y.message] and there is no dead letter;
    otherwise [y] itself is thrown, with exactly one dead letter, carrying
    [y.message] and the payload.  ([run] itself always settles.) *)
Theorem run_ends_as_last_attempt (r : t) (arg : jsval) (w : world) :
  exists evs,
    out (snd (run r arg w)) = out w ++ evs /\
    match fst (run r arg w) with
    | Normal v =>
        dead_letters evs = [] /\
        (0 <= maxRetries r ->
         attempt_outcome r
           (handler r (pred (calls (snd (run r arg w))))
              (default_param arg empty_object))
         = Normal v)
    | Thrown x =>
        exists y,
          attempt_outcome r
            (handler r (pred (calls (snd (run r arg w))))
               (default_param arg empty_object))
          = Thrown y /\
          if nullish y then
            x = ErrorObject (cannot_read_message y) /\ dead_letters evs = []
          else
            x = y /\
            dead_letters evs
            = [(message_value y, default_param arg empty_object)]
    | Stuck => False
    end.
Proof.
  unfold run. apply run_loop_outcome.
Qed.

Lemma run_loop_timers r payload :
  forall a w,
    exists evs,
      out (snd (run_loop r payload a w)) = out w ++ evs /\
      (forall n, timers_after n evs = Some n) /\
      Forall (eq (timeoutMs r)) (timer_delays evs).
Proof.
  apply (run_loop_cases r payload
           (fun a w res =>
              exists evs,
                out (snd res) = out w ++ evs /\
                (forall n, timers_after n evs = Some n) /\
                Forall (eq (timeoutMs r)) (timer_delays evs))).
  - intros a w Ha. exists []. cbn. rewrite app_nil_r.
    repeat split. constructor.
  - intros a w v Ha Hv. eexists. split; [reflexivity |]. split.
    + intros n. rewrite timers_after_app, timers_after_attempt. reflexivity.
    + rewrite timer_delays_app. apply Forall_app. split.
      * apply timer_delays_attempt.
      * constructor.
  - intros a w x Ha Hx Hnull. exists (attempt_log r payload (a + 1)
                                       (handler r (calls w) payload)).
    split; [reflexivity |]. split.
    + intros n. apply timers_after_attempt.
    + apply timer_delays_attempt.
  - intros a w x Ha Hx. eexists. split; [reflexivity |]. split.
    + intros n. rewrite timers_after_app, timers_after_attempt. reflexivity.
    + rewrite timer_delays_app. apply Forall_app. split.
      * apply timer_delays_attempt.
      * constructor.
  - intros a w x res Ha Hx (evs & Hout & Htimers & Hdelays).
    rewrite Hout. cbn [after_retry out]. rewrite <- app_assoc.
    eexists. split; [reflexivity |]. split.
    + intros n. rewrite <- app_assoc.
      rewrite timers_after_app, timers_after_attempt. cbn [List.app timers_after].
      apply Htimers.
    + rewrite <- app_assoc, timer_delays_app. apply Forall_app. split.
      * apply timer_delays_attempt.
      * exact Hdelays.
Qed.

(** X3. [run] leaves no timer behind: among the events of a run every
    timer that is set is cleared later, none is cleared without being set,
    and every timer is set with the delay [timeoutMs]. *)
Theorem run_clears_its_timers (r : t) (arg : jsval) (w : world) :
  exists evs,
    out (snd (run r arg w)) = out w ++ evs /\
    timers_after 0 evs = Some 0%nat /\
    Forall (eq (timeoutMs r)) (timer_delays evs).
Proof.
  unfold run.
  destruct (run_loop_timers r (default_param arg empty_object) 0 w)
    as (evs & Hout & Htimers & Hdelays).
  exists evs. repeat split; [exact Hout | apply Htimers | exact Hdelays].
Qed.





(** With [timeoutMs = 0] the timer of an attempt still runs only after
    1 ms: the single attempt of a runner without retries takes 1 ms, more
    than [timeoutMs]. *)
Lemma run_with_zero_timeout :
  run Demo.impatient VNull Demo.idle_world
  = (Thrown (ErrorObject timeout_error),
     {| now := now Demo.idle_world + 1; calls := 1;
        out := [Log (JobStart "demo" 1); Invoked VNull; TimerSet 0; TimerCleared;
                Log (JobFailed "demo" 1 (VStr "Job execution timed out") VNull);
                Log (JobDeadLetter "demo" (VStr "Job execution timed out") VNull
                       (now Demo.idle_world + 1))] |}) /\
  (maxRetries Demo.impatient + 1)
  * (2 * timeoutMs Demo.impatient
     + backoffMs Demo.impatient * maxRetries Demo.impatient)
  < 2 * (now (snd (run Demo.impatient VNull Demo.idle_world))
         - now Demo.idle_world).
Proof.
  change (run Demo.impatient VNull Demo.idle_world)
    with (run_loop Demo.impatient VNull 0 Demo.idle_world).
  rewrite (run_loop_exhausted Demo.impatient VNull 0 Demo.idle_world
             (ErrorObject timeout_error) eq_refl (conj eq_refl eq_refl)).
  split; reflexivity.
Qed.

Lemma run_loop_accounts r payload :
  forall a w,
    exists evs unread,
      out (snd (run_loop r payload a w)) = out w ++ evs /\
      started evs = failed evs ++ succeeded evs ++ unread /\
      (List.length (succeeded evs) <= 1)%nat /\
      (succeeded evs = [] <->
       forall v, a <= maxRetries r -> fst (run_loop r payload a w) <> Normal v) /\
      (unread = [] \/
       exists a' y,
         unread = [a'] /\ succeeded evs = [] /\ nullish y = true /\
         attempt_outcome r
           (handler r (pred (calls (snd (run_loop r payload a w)))) payload)
         = Thrown y /\
         fst (run_loop r payload a w)
         = Thrown (ErrorObject (cannot_read_message y))).
Proof.
  apply (run_loop_cases r payload
           (fun a w res =>
              exists evs unread,
                out (snd res) = out w ++ evs /\
                started evs = failed evs ++ succeeded evs ++ unread /\
                (List.length (succeeded evs) <= 1)%nat /\
                (succeeded evs = [] <->
                 forall v, a <= maxRetries r -> fst res <> Normal v) /\
                (unread = [] \/
                 exists a' y,
                   unread = [a'] /\ succeeded evs = [] /\ nullish y = true /\
                   attempt_outcome r (handler r (pred (calls (snd res))) payload)
                   = Thrown y /\
                   fst res = Thrown (ErrorObject (cannot_read_message y))))).
  - intros a w Ha. exists [], []. cbn. rewrite app_nil_r.
    repeat split; try lia; try reflexivity. left. reflexivity.
  - intros a w v Ha Hv. eexists. exists []. split; [reflexivity |].
    tally. cbn [List.length fst]. repeat split; try lia; try discriminate.
    + intros H. exfalso. exact (H v Ha eq_refl).
    + left. reflexivity.
  - intros a w x Ha Hx Hnull.
    exists (attempt_log r payload (a + 1) (handler r (calls w) payload)), [a + 1].
    split; [reflexivity |].
    tally. cbn [List.length fst snd calls after_attempt pred].
    repeat split; try lia; try discriminate.
    right. exists (a + 1), x. repeat split; assumption.
  - intros a w x Ha Hx. eexists. exists []. split; [reflexivity |].
    tally. cbn [List.length fst]. repeat split; try lia; try discriminate.
    left. reflexivity.
  - intros a w x res Ha Hx (evs & unread & Hout & Hacc & Hone & Hiff & Hunread).
    rewrite Hout. cbn [after_retry out]. rewrite <- app_assoc.
    eexists. exists unread. split; [reflexivity |].
    tally. rewrite Hacc. repeat split; try assumption.
    + intros H v Hle. apply Hiff; [exact H | lia].
    + intros H. apply Hiff. intros v _. apply H. lia.
Qed.

(** X5. The log of a run accounts for every attempt but one that failed
    with undefined or null: the attempts started are those logged as
    failed, followed by the one logged as successful, if any, followed by
    the attempt after which reading [error.message] threw, if any, which
    is then the last one and is logged neither way.  At most one attempt
    is logged as successful, and (for [maxRetries >= 0]) one is exactly
    when [run] returns a value. *)
Theorem run_log_accounts (r : t) (arg : jsval) (w : world) :
  exists evs unread,
    out (snd (run r arg w)) = out w ++ evs /\
    started evs = failed evs ++ succeeded evs ++ unread /\
    (List.length (succeeded evs) <= 1)%nat /\
    (0 <= maxRetries r ->
     forall v, fst (run r arg w) = Normal v -> succeeded evs <> []) /\
    (succeeded evs <> [] -> exists v, fst (run r arg w) = Normal v) /\
    (unread = [] \/
     exists a y,
       unread = [a] /\ succeeded evs = [] /\ nullish y = true /\
       attempt_outcome r
         (handler r (pred (calls (snd (run r arg w))))
            (default_param arg empty_object))
       = Thrown y /\
       fst (run r arg w) = Thrown (ErrorObject (cannot_read_message y))).
Proof.
  unfold run.
  destruct (run_loop_accounts r (default_param arg empty_object) 0 w)
    as (evs & unread & Hout & Hacc & Hone & Hiff & Hunread).
  exists evs, unread. repeat split; try assumption.
  - intros Hn v Hv Hnone. apply (proj1 Hiff Hnone v Hn Hv).
  - intros Hsome.
    destruct (fst (run_loop r (default_param arg empty_object) 0 w)) as [v | x |];
      [exists v; reflexivity | |];
      exfalso; apply Hsome, Hiff; intros v _; discriminate.
Qed.

Lemma run_log_accounts_witness :
  exists evs unread,
    out (snd (run (Demo.runner (Demo.fails_then_succeeds 2) 3) VNull
                Demo.idle_world)) = out Demo.idle_world ++ evs /\
    started evs = failed evs ++ succeeded evs ++ unread /\
    (List.length (succeeded evs) <= 1)%nat /\
    succeeded evs <> [].
Proof.
  destruct (run_log_accounts (Demo.runner (Demo.fails_then_succeeds 2) 3) VNull
              Demo.idle_world)
    as (evs & unread & Hout & Hacc & Hone & Hval & _).
  exists evs, unread. repeat split; try assumption.
  apply (Hval ltac:(simpl; lia) (VNum 7)). reflexivity.
Defined.

Lemma run_loop_backoffs r payload :
  forall a w,
    exists evs,
      out (snd (run_loop r payload a w)) = out w ++ evs /\
      (dead_letters evs <> [] -> failed evs <> []) /\
      backoffs evs
      = map (backoff_delay r)
          (match dead_letters evs with
           | [] => failed evs
           | _ :: _ => removelast (failed evs)
           end) /\
      now (snd (run_loop r payload a w))
      = now w
        + attempts_time r payload (calls w) (List.length (invoked evs))
        + total (map timer_delay (backoffs evs)).
Proof.
  apply (run_loop_cases r payload
           (fun a w res =>
              exists evs,
                out (snd res) = out w ++ evs /\
                (dead_letters evs <> [] -> failed evs <> []) /\
                backoffs evs
                = map (backoff_delay r)
                    (match dead_letters evs with
                     | [] => failed evs
                     | _ :: _ => removelast (failed evs)
                     end) /\
                now (snd res)
                = now w
                  + attempts_time r payload (calls w) (List.length (invoked evs))
                  + total (map timer_delay (backoffs evs)))).
  - intros a w Ha. exists []. cbn. rewrite app_nil_r.
    repeat split; [congruence | lia].
  - intros a w v Ha Hv. turn.
    cbn [List.length attempts_time total map fold_right snd now after_success].
    repeat split; [congruence | lia].
  - intros a w x Ha Hx Hnull.
    exists (attempt_log r payload (a + 1) (handler r (calls w) payload)).
    split; [reflexivity |]. tally.
    cbn [List.length attempts_time total map fold_right snd now after_attempt].
    repeat split; [congruence | lia].
  - intros a w x Ha Hx. turn.
    cbn [List.length attempts_time total map fold_right snd now after_exhausted
         removelast].
    repeat split; [discriminate | lia].
  - intros a w x res Ha Hx (evs & Hout & Hne & Hback & Hnow).
    rewrite Hout. cbn [after_retry out]. rewrite <- !app_assoc.
    eexists. split; [reflexivity |]. tally.
    cbn [List.length attempts_time total map fold_right].
    rewrite Hback, Hnow. cbn [after_retry now calls]. split; [| split].
    + discriminate.
    + destruct (dead_letters evs) as [| d ds]; [reflexivity |].
      specialize (Hne ltac:(discriminate)).
      destruct (failed evs) as [| f fs]; [contradiction | reflexivity].
    + rewrite <- Hback. unfold total. lia.
Qed.

(** X6. Whatever the handler does, every attempt logged as failed is
    followed by its backoff, set with the product of [backoffMs] and the
    attempt number, in order, except the failed attempt that is
    dead-lettered: there is no wait between the last failure and the error
    reaching the caller.  The time a run takes is the time of its attempts
    and of these backoffs, each as long as its timer runs. *)
Theorem run_backoff_per_failure (r : t) (arg : jsval) (w : world) :
  exists evs,
    out (snd (run r arg w)) = out w ++ evs /\
    backoffs evs
    = map (backoff_delay r)
        (match dead_letters evs with
         | [] => failed evs
         | _ :: _ => removelast (failed evs)
         end) /\
    now (snd (run r arg w))
    = now w
      + attempts_time r (default_param arg empty_object) (calls w)
          (List.length (invoked evs))
      + total (map timer_delay (backoffs evs)).
Proof.
  unfold run.
  destruct (run_loop_backoffs r (default_param arg empty_object) 0 w)
    as (evs & Hout & _ & Hback & Hnow).
  exists evs. repeat split; assumption.
Qed.

(** X7. A promise that settles before the timer of [_runWithTimeout] runs
    (after [timeoutMs] between 1 and 2147483647, after 1 ms otherwise)
    passes through unchanged: its value is returned, or what it was
    rejected with (not the timeout error) is thrown, after the time the
    promise took, and the timer is cleared. *)
Theorem runWithTimeout_passes_through (ms limit : Z) (s : settlement) (w : world) :
  ms <= timer_delay limit ->
  _runWithTimeout (SettlesAfter ms s) limit w =
    (match s with
     | Fulfilled v => Normal v
     | Rejected x => Thrown x
     end,
     {| now := now w + ms; calls := calls w;
        out := out w ++ [TimerSet limit; TimerCleared] |}).
Proof.
  intros Hms.
  unfold _runWithTimeout, bind, finally, emit, advance, modify, race.
  destruct (Z.leb_spec ms (timer_delay limit)); [| lia].
  destruct s; cbn; rewrite <- app_assoc; reflexivity.
Qed.

Lemma runWithTimeout_passes_through_witness :
  _runWithTimeout (SettlesAfter 10 (Rejected Demo.boom)) 5000 Demo.idle_world =
    (Thrown (ErrorObject Demo.boom),
     {| now := 1010; calls := 0; out := [TimerSet 5000; TimerCleared] |}).
Proof.
  apply (runWithTimeout_passes_through 10 5000 (Rejected Demo.boom)
           Demo.idle_world).
  change (timer_delay 5000) with 5000. lia.
Defined.

(** X8. An operation that would succeed, but only after the timer of the
    attempt has run, is started again in every attempt: with
    [maxRetries = n >= 0] the handler is invoked [n + 1] times and [run]
    still throws the timeout error. *)
Theorem run_restarts_slow_operation (r : t) (arg : jsval) (w : world) :
  0 <= maxRetries r ->
  (forall i, exists ms v,
        handler r i (default_param arg empty_object)
        = Returns (SettlesAfter ms (Fulfilled v)) /\
        timer_delay (timeoutMs r) < ms) ->
  exists evs,
    run r arg w = (Thrown (ErrorObject timeout_error), snd (run r arg w)) /\
    out (snd (run r arg w)) = out w ++ evs /\
    invoked evs
    = repeat (default_param arg empty_object) (S (Z.to_nat (maxRetries r))).
Proof.
  intros Hn Hslow. unfold run.
  set (payload := default_param arg empty_object) in *.
  assert (Hout : forall i,
             fails_with r (handler r i payload) (ErrorObject timeout_error)).
  { intros i. destruct (Hslow i) as (ms & v & Hb & Hms). rewrite Hb.
    split; [| reflexivity]. cbn.
    destruct (Z.leb_spec ms (timer_delay (timeoutMs r))); [lia | reflexivity]. }
  destruct (run_loop_failures r payload (Z.to_nat (maxRetries r)) 0 w ltac:(lia))
    as (w1 & evs1 & Hrun1 & _ & _ & Hout1 & _ & Hi1 & _).
  { intros i _. exists (ErrorObject timeout_error). apply Hout. }
  rewrite Hrun1.
  rewrite (run_loop_exhausted r payload (0 + Z.of_nat (Z.to_nat (maxRetries r)))
             w1 (ErrorObject timeout_error) ltac:(lia) (Hout _)).
  eexists (evs1 ++ _). cbn [snd out after_exhausted].
  rewrite Hout1, <- app_assoc. split; [reflexivity |]. split; [reflexivity |].
  tally. rewrite Hi1, repeat_last. reflexivity.
Qed.

Lemma run_restarts_slow_operation_witness :
  exists evs,
    run (Demo.runner Demo.slow 2) VNull Demo.idle_world
    = (Thrown (ErrorObject timeout_error),
       snd (run (Demo.runner Demo.slow 2) VNull Demo.idle_world)) /\
    out (snd (run (Demo.runner Demo.slow 2) VNull Demo.idle_world))
    = out Demo.idle_world ++ evs /\
    invoked evs = repeat VNull (S (Z.to_nat 2)).
Proof.
  apply (run_restarts_slow_operation (Demo.runner Demo.slow 2) VNull
           Demo.idle_world).
  - simpl. lia.
  - intros i. exists 9000, (VNum 7). split; [reflexivity |].
    change (timer_delay (timeoutMs (Demo.runner Demo.slow 2))) with 5000. lia.
Defined.

End JobRunnerMore.

(** * Further properties of the dependency guard *)

Module ServerMore.
Import Server ServerObs ServerFacts.

(** X9. [callDependency] never throws: whatever the dependency does and
    whatever the state of the guard, the call does not end with an error;
    and when no request hangs it returns a value, the data of a response or
    the fallback. *)
Theorem callDependency_never_throws
    (request : config -> callable response) (cfg : config) (arg : jsval)
    (w : world) :
  (forall e, fst (callDependency request cfg arg w) <> Thrown e) /\
  ((forall i, request cfg i <> Hangs) ->
   fst (callDependency request cfg arg w) = Normal (default_param arg VNull) \/
   exists i ms resp,
     request cfg i = Resolves ms resp /\
     fst (callDependency request cfg arg w) = Normal (data resp)).
Proof.
  destruct (circuit_open w) eqn:Hopen.
  - rewrite (callDependency_open request cfg arg w Hopen). cbn [fst].
    split; [discriminate | intros _; left; reflexivity].
  - destruct (callDependency_closed request cfg arg w Hopen)
      as (j & _ & _ & _ & Hrun).
    cbv zeta in Hrun. rewrite Hrun.
    destruct (request cfg (invocations w + j)%nat) as [ms resp | ms e |] eqn:Hj;
      cbn [fst]; (split; [discriminate |]); intros Hsettle.
    + right. exists (invocations w + j)%nat, ms, resp. split; [exact Hj | reflexivity].
    + left. reflexivity.
    + exfalso. exact (Hsettle _ Hj).
Qed.

Lemma callDependency_never_throws_witness :
  fst (callDependency Demo.down Demo.endpoint VUndefined Demo.strained)
  = Normal (default_param VUndefined VNull) \/
  exists i ms resp,
    Demo.down Demo.endpoint i = Resolves ms resp /\
    fst (callDependency Demo.down Demo.endpoint VUndefined Demo.strained)
    = Normal (data resp).
Proof.
  apply (callDependency_never_throws Demo.down Demo.endpoint VUndefined
           Demo.strained).
  intros i. discriminate.
Defined.

(** X10. With the circuit closed, when a request of the call resolves, at
    the first try or after one or two rejected ones, [callDependency]
    returns the data of that response, resets the failure counter to 0 and
    the circuit to closed, and has made exactly the requests up to that
    one, with a pause of 500 ms between them: it returns when the time of
    these requests and 500 ms for each rejected one have passed. *)
Theorem callDependency_success
    (request : config -> callable response) (cfg : config) (arg : jsval)
    (w : world) (j : nat) (ms : Z) (resp : response) :
  circuit_open w = false ->
  (j <= 2)%nat ->
  (forall i, (i < j)%nat -> rejects (request cfg) (invocations w + i)) ->
  request cfg (invocations w + j)%nat = Resolves ms resp ->
  fst (callDependency request cfg arg w) = Normal (data resp) /\
  dependencyFailures (snd (callDependency request cfg arg w)) = 0 /\
  circuitOpenUntil (snd (callDependency request cfg arg w)) = None /\
  invocations (snd (callDependency request cfg arg w))
  = (invocations w + S j)%nat /\
  out (snd (callDependency request cfg arg w)) = out w ++ retry_trace j /\
  now (snd (callDependency request cfg arg w))
  = now w + spent (request cfg) (invocations w) j + 500 * Z.of_nat j.
Proof.
  intros Hclosed Hj Hrej Hres.
  destruct (callDependency_closed request cfg arg w Hclosed)
    as (j' & Hj' & Hrej' & Hlast' & Hrun).
  assert (j' = j) as ->.
  { apply (deciding_call response (request cfg) (invocations w) 2);
      try assumption.
    right. intros (ms' & e' & H). congruence. }
  cbv zeta in Hrun. rewrite Hrun, Hres. repeat split.
Qed.

Lemma callDependency_success_witness :
  fst (callDependency (Samples.recovering 13) Demo.endpoint VNull Demo.strained)
  = Normal (VNum 7) /\
  dependencyFailures
    (snd (callDependency (Samples.recovering 13) Demo.endpoint VNull
            Demo.strained)) = 0 /\
  circuitOpenUntil
    (snd (callDependency (Samples.recovering 13) Demo.endpoint VNull
            Demo.strained)) = None /\
  invocations
    (snd (callDependency (Samples.recovering 13) Demo.endpoint VNull
            Demo.strained)) = (invocations Demo.strained + 2)%nat /\
  out (snd (callDependency (Samples.recovering 13) Demo.endpoint VNull
              Demo.strained)) = out Demo.strained ++ retry_trace 1 /\
  now (snd (callDependency (Samples.recovering 13) Demo.endpoint VNull
              Demo.strained)) = 1000 + (30 + 40) + 500 * 1.
Proof.
  apply (callDependency_success (Samples.recovering 13) Demo.endpoint VNull
           Demo.strained 1 40 {| data := VNum 7 |}).
  - reflexivity.
  - lia.
  - intros i Hi. exists 30, Demo.boom. destruct i; [reflexivity | lia].
  - reflexivity.
Defined.

(** X11. With the circuit closed, when the three requests of a call are
    all rejected, [callDependency] returns the fallback after exactly three
    requests and the two pauses of 500 ms between them, counts one
    failure, logs the url, the method and the message of the last error,
    and opens the circuit until 60 s after the failure exactly when the
    counter has reached 5. *)
Theorem callDependency_failure
    (request : config -> callable response) (cfg : config) (arg : jsval)
    (w : world) (ms : Z) (e : error) :
  circuit_open w = false ->
  (forall i, (i < 2)%nat -> rejects (request cfg) (invocations w + i)) ->
  request cfg (invocations w + 2)%nat = Rejects ms e ->
  let w' := snd (callDependency request cfg arg w) in
  fst (callDependency request cfg arg w) = Normal (default_param arg VNull) /\
  dependencyFailures w' = dependencyFailures w + 1 /\
  invocations w' = (invocations w + 3)%nat /\
  pauses (out w') = pauses (out w) ++ [500; 500] /\
  now w' = now w + spent (request cfg) (invocations w) 2 + 500 * 2 /\
  In (failure_line cfg e) (out w') /\
  circuitOpenUntil w'
  = if dependencyFailures w + 1 >=? 5 then Some (now w' + 60000)
    else circuitOpenUntil w.
Proof.
  intros Hclosed Hrej Hlast.
  destruct (callDependency_closed request cfg arg w Hclosed)
    as (j' & Hj' & Hrej' & Hlast' & Hrun).
  assert (j' = 2%nat) as ->.
  { apply (deciding_call response (request cfg) (invocations w) 2);
      try assumption; lia. }
  cbv zeta in *. rewrite Hrun, Hlast. unfold after_retries, retry_trace, pauses.
  destruct (dependencyFailures w + 1 >=? 5);
    cbn [fst snd dependencyFailures invocations out now circuitOpenUntil
           retry_prefix app];
    rewrite !flat_map_app; cbn [flat_map app];
    rewrite ?app_nil_r;
    (repeat split;
     [ rewrite !in_app_iff; right; cbn; tauto ]).
Qed.

Lemma callDependency_failure_witness :
  fst (callDependency Demo.down Demo.endpoint (VStr "cached") Demo.strained)
  = Normal (VStr "cached") /\
  dependencyFailures
    (snd (callDependency Demo.down Demo.endpoint (VStr "cached") Demo.strained))
  = 4 + 1 /\
  circuitOpenUntil
    (snd (callDependency Demo.down Demo.endpoint (VStr "cached") Demo.strained))
  = Some (now (snd (callDependency Demo.down Demo.endpoint (VStr "cached")
                      Demo.strained)) + 60000).
Proof.
  destruct (callDependency_failure Demo.down Demo.endpoint (VStr "cached")
              Demo.strained 30 Demo.boom)
    as (Hres & Hcount & _ & _ & _ & _ & Hopen).
  - reflexivity.
  - intros i Hi. exists 30, Demo.boom. reflexivity.
  - reflexivity.
  - repeat split; assumption.
Defined.

(** X12. One call of [callDependency] makes at most three requests to the
    dependency, whatever the state of the guard and whatever the dependency
    does. *)
Theorem callDependency_at_most_three
    (request : config -> callable response) (cfg : config) (arg : jsval)
    (w : world) :
  (invocations w <= invocations (snd (callDependency request cfg arg w))
   <= invocations w + 3)%nat /\
  (called (out w) <= called (out (snd (callDependency request cfg arg w)))
   <= called (out w) + 3)%nat.
Proof.
  destruct (circuit_open w) eqn:Hopen.
  - rewrite (callDependency_open request cfg arg w Hopen).
    cbn [snd invocations out]. rewrite called_app. cbn. lia.
  - destruct (callDependency_closed request cfg arg w Hopen)
      as (j & Hj & _ & _ & Hrun).
    cbv zeta in Hrun. rewrite Hrun. unfold after_retries.
    destruct (request cfg (invocations w + j)%nat) as [ms resp | ms e |];
      [| destruct (dependencyFailures w + 1 >=? 5) |];
      cbn [snd invocations out];
      rewrite ?called_app, called_retry_trace; cbn; lia.
Qed.

Lemma spent_bounds A (fn : callable A) limit :
  punctual fn limit ->
  forall j start, 0 <= spent fn start j <= Z.of_nat (S j) * limit.
Proof.
  intros Hp. induction j as [| j IH]; intros start.
  - cbn [spent]. destruct (Hp start) as [_ H]. lia.
  - cbn [spent]. destruct (Hp start) as [_ H]. specialize (IH (S start)). lia.
Qed.

(** X13. When every request settles within the 5000 ms that the axios
    client allows, one call of [callDependency] takes at most
    3 * 5000 + 2 * 500 = 16000 ms, and no time when the circuit is open. *)
Theorem callDependency_latency
    (request : config -> callable response) (cfg : config) (arg : jsval)
    (w : world) :
  punctual (request cfg) 5000 ->
  0 <= now (snd (callDependency request cfg arg w)) - now w <= 16000 /\
  (circuit_open w = true ->
   now (snd (callDependency request cfg arg w)) = now w).
Proof.
  intros Hp. destruct (circuit_open w) eqn:Hopen.
  - rewrite (callDependency_open request cfg arg w Hopen). cbn [snd now].
    split; [lia | reflexivity].
  - split; [| discriminate].
    destruct (callDependency_closed request cfg arg w Hopen)
      as (j & Hj & _ & _ & Hrun).
    cbv zeta in Hrun. rewrite Hrun. unfold after_retries.
    pose proof (spent_bounds response (request cfg) 5000 Hp j (invocations w)).
    destruct (request cfg (invocations w + j)%nat) as [ms resp | ms e |];
      [| destruct (dependencyFailures w + 1 >=? 5) |];
      cbn [snd now]; lia.
Qed.

Lemma callDependency_latency_witness :
  0 <= now (snd (callDependency Demo.down Demo.endpoint VNull Demo.strained))
       - now Demo.strained <= 16000.
Proof.
  apply (callDependency_latency Demo.down Demo.endpoint VNull Demo.strained).
  intros i. split; [discriminate | simpl; lia].
Defined.

(** X14. The end of the cooldown does not reset the failure counter: once
    the 60 s have passed the circuit counts as closed and the next call
    goes through to the dependency, and if its three requests are rejected
    that single failed call opens the circuit again, for 60 s from then. *)
Theorem circuit_reopens_after_cooldown
    (request : config -> callable response) (cfg : config) (arg : jsval)
    (w : world) (until : Z) :
  circuitOpenUntil w = Some until ->
  until <= now w ->
  0 <= now w ->
  4 <= dependencyFailures w ->
  down request ->
  let w' := snd (callDependency request cfg arg w) in
  circuit_open w = false /\
  invocations w' = (invocations w + 3)%nat /\
  fst (callDependency request cfg arg w) = Normal (default_param arg VNull) /\
  circuitOpenUntil w' = Some (now w' + 60000) /\
  circuit_open w' = true.
Proof.
  intros Hu Hpast Hnow Hcount Hdown.
  assert (Hclosed : circuit_open w = false).
  { unfold circuit_open. rewrite Hu.
    destruct (Z.ltb_spec (now w) until); [lia |]. apply andb_false_r. }
  destruct (callDependency_closed request cfg arg w Hclosed)
    as (j & Hj & Hrej & Hlast & Hrun).
  assert (j = 2%nat) as ->.
  { destruct Hlast as [H | H]; [exact H |]. exfalso. apply H.
    destruct (Hdown cfg (invocations w + j)%nat) as (ms & e & Hr & _).
    exists ms, e. exact Hr. }
  cbv zeta in *. rewrite Hrun.
  assert (Hsp : 0 <= spent (request cfg) (invocations w) 2).
  { cbn [spent].
    destruct (Hdown cfg (invocations w)) as (m0 & e0 & -> & ?).
    destruct (Hdown cfg (S (invocations w))) as (m1 & e1 & -> & ?).
    destruct (Hdown cfg (S (S (invocations w)))) as (m2 & e2 & -> & ?).
    cbn [duration]. lia. }
  destruct (Hdown cfg (invocations w + 2)%nat) as (ms & e & -> & _).
  destruct (Z.geb_spec (dependencyFailures w + 1) 5); [| lia].
  split; [exact Hclosed |].
  unfold after_retries, circuit_open, truthy.
  cbn [fst snd invocations now circuitOpenUntil].
  repeat split.
  apply andb_true_iff. split.
  - apply negb_true_iff, Z.eqb_neq. lia.
  - apply Z.ltb_lt. lia.
Qed.

Lemma circuit_reopens_after_cooldown_witness :
  circuit_open Samples.cooled = false /\
  invocations (snd (callDependency Demo.down Demo.endpoint VNull Samples.cooled))
  = (invocations Samples.cooled + 3)%nat /\
  fst (callDependency Demo.down Demo.endpoint VNull Samples.cooled)
  = Normal (default_param VNull VNull) /\
  circuitOpenUntil
    (snd (callDependency Demo.down Demo.endpoint VNull Samples.cooled))
  = Some (now (snd (callDependency Demo.down Demo.endpoint VNull Samples.cooled))
          + 60000) /\
  circuit_open (snd (callDependency Demo.down Demo.endpoint VNull Samples.cooled))
  = true.
Proof.
  apply (circuit_reopens_after_cooldown Demo.down Demo.endpoint VNull
           Samples.cooled 61000).
  - reflexivity.
  - simpl. lia.
  - simpl. lia.
  - simpl. lia.
  - intros cfg i. exists 30, Demo.boom. split; [reflexivity | lia].
Defined.

Lemma perform_app request l1 : forall l2 w,
  perform request (l1 ++ l2) w =
  (fst (perform request l1 w)
   ++ fst (perform request l2 (snd (perform request l1 w))),
   snd (perform request l2 (snd (perform request l1 w)))).
Proof.
  induction l1 as [| a l1 IH]; intros l2 w.
  - cbn. destruct (perform request l2 w). reflexivity.
  - cbn [app perform]. destruct (perform1 request a w) as [cs w1].
    rewrite IH. destruct (perform request l1 w1) as [cs1 w2]. cbn [fst snd].
    rewrite app_assoc. reflexivity.
Qed.

(** One call to a dependency that is down, with a circuit that was never
    opened. *)
Lemma failed_call_step request cfg arg w :
  down request ->
  circuitOpenUntil w = None ->
  let w' := snd (callDependency request cfg arg w) in
  fst (callDependency request cfg arg w) = Normal (default_param arg VNull) /\
  dependencyFailures w' = dependencyFailures w + 1 /\
  invocations w' = (invocations w + 3)%nat /\
  now w <= now w' /\
  circuitOpenUntil w'
  = if dependencyFailures w + 1 >=? 5 then Some (now w' + 60000) else None.
Proof.
  intros Hdown Hnone.
  assert (Hclosed : circuit_open w = false)
    by (unfold circuit_open; rewrite Hnone; reflexivity).
  destruct (callDependency_closed request cfg arg w Hclosed)
    as (j & Hj & Hrej & Hlast & Hrun).
  assert (j = 2%nat) as ->.
  { destruct Hlast as [H | H]; [exact H |]. exfalso. apply H.
    destruct (Hdown cfg (invocations w + j)%nat) as (ms & e & Hr & _).
    exists ms, e. exact Hr. }
  cbv zeta in *. rewrite Hrun.
  assert (Hsp : 0 <= spent (request cfg) (invocations w) 2).
  { cbn [spent].
    destruct (Hdown cfg (invocations w)) as (m0 & e0 & -> & ?).
    destruct (Hdown cfg (S (invocations w))) as (m1 & e1 & -> & ?).
    destruct (Hdown cfg (S (S (invocations w)))) as (m2 & e2 & -> & ?).
    cbn [duration]. lia. }
  destruct (Hdown cfg (invocations w + 2)%nat) as (ms & e & -> & _).
  unfold after_retries.
  destruct (dependencyFailures w + 1 >=? 5);
    cbn [fst snd invocations now circuitOpenUntil dependencyFailures];
    rewrite ?Hnone; repeat split; lia.
Qed.

Lemma perform_failures request :
  down request ->
  forall calls w,
    circuitOpenUntil w = None ->
    dependencyFailures w + Z.of_nat (List.length calls) < 5 ->
    fst (perform request (calling calls) w) = fallbacks (calling calls) /\
    dependencyFailures (snd (perform request (calling calls) w))
    = dependencyFailures w + Z.of_nat (List.length calls) /\
    circuitOpenUntil (snd (perform request (calling calls) w)) = None /\
    invocations (snd (perform request (calling calls) w))
    = (invocations w + 3 * List.length calls)%nat /\
    now w <= now (snd (perform request (calling calls) w)).
Proof.
  intros Hdown. induction calls as [| [cfg arg] calls IH]; intros w Hnone Hlt.
  - cbn. repeat split; try assumption; lia.
  - cbn [calling map fst snd perform perform1 fallbacks flat_map List.length] in *.
    destruct (failed_call_step request cfg arg w Hdown Hnone)
      as (Hres & Hcount & Hinv & Hnow & Hcirc).
    destruct (callDependency request cfg arg w) as [c w1]. cbn [fst snd] in *.
    destruct (Z.geb_spec (dependencyFailures w + 1) 5); [lia |].
    destruct (IH w1 Hcirc ltac:(lia)) as (Hcs & Hcount' & Hcirc' & Hinv' & Hnow').
    fold (calling calls) in *.
    destruct (perform request (calling calls) w1) as [cs w2]. cbn [fst snd app] in *.
    subst c. rewrite Hcs, Hcount', Hcirc', Hinv', Hcount, Hinv.
    repeat split; lia.
Qed.

(** X15. With a dependency that is down, the calls of [callDependency]
    that bring the failure counter from below 5 up to 5 each return their
    fallback after three requests, and the last of them opens the circuit,
    for 60 s from the time of that failure. *)
Theorem failures_open_the_circuit
    (request : config -> callable response) (calls : list (config * jsval))
    (w : world) :
  down request ->
  circuitOpenUntil w = None ->
  0 <= now w ->
  0 <= dependencyFailures w < 5 ->
  Z.of_nat (List.length calls) = 5 - dependencyFailures w ->
  let w' := snd (perform request (calling calls) w) in
  fst (perform request (calling calls) w) = fallbacks (calling calls) /\
  invocations w' = (invocations w + 3 * List.length calls)%nat /\
  dependencyFailures w' = 5 /\
  circuitOpenUntil w' = Some (now w' + 60000) /\
  circuit_open w' = true.
Proof.
  intros Hdown Hnone Hnow Hrange Hlen.
  destruct (exists_last (l := calls)) as (first & [cfg arg] & ->).
  { intros ->. cbn [List.length Z.of_nat] in Hlen. lia. }
  rewrite length_app in *. cbn [List.length] in *.
  unfold calling. rewrite map_app. fold (calling first). cbn [map fst snd].
  cbv zeta. rewrite perform_app.
  destruct (perform_failures request Hdown first w Hnone ltac:(lia))
    as (Hcs & Hcount & Hcirc & Hinv & Hnow').
  destruct (perform request (calling first) w) as [cs w1]. cbn [fst snd] in *.
  cbn [perform perform1].
  destruct (failed_call_step request cfg arg w1 Hdown Hcirc)
    as (Hres & Hcount1 & Hinv1 & Hnow1 & Hcirc1).
  destruct (callDependency request cfg arg w1) as [c w2]. cbn [fst snd] in *.
  destruct (Z.geb_spec (dependencyFailures w1 + 1) 5); [| lia].
  unfold fallbacks. rewrite flat_map_app. fold (fallbacks (calling first)).
  cbn [flat_map app]. subst c. rewrite Hcs, ?app_nil_r.
  repeat split; try lia; try assumption.
  unfold circuit_open, truthy. rewrite Hcirc1.
  apply andb_true_iff. split.
  - apply negb_true_iff, Z.eqb_neq. lia.
  - apply Z.ltb_lt. lia.
Qed.

Lemma failures_open_the_circuit_witness :
  fst (perform Demo.down (calling [(Demo.endpoint, VNull)]) Demo.strained)
  = fallbacks (calling [(Demo.endpoint, VNull)]) /\
  invocations (snd (perform Demo.down (calling [(Demo.endpoint, VNull)])
                      Demo.strained))
  = (invocations Demo.strained + 3 * 1)%nat /\
  dependencyFailures (snd (perform Demo.down (calling [(Demo.endpoint, VNull)])
                             Demo.strained)) = 5 /\
  circuitOpenUntil (snd (perform Demo.down (calling [(Demo.endpoint, VNull)])
                           Demo.strained))
  = Some (now (snd (perform Demo.down (calling [(Demo.endpoint, VNull)])
                      Demo.strained)) + 60000) /\
  circuit_open (snd (perform Demo.down (calling [(Demo.endpoint, VNull)])
                       Demo.strained)) = true.
Proof.
  apply (failures_open_the_circuit Demo.down [(Demo.endpoint, VNull)]
           Demo.strained).
  - intros cfg i. exists 30, Demo.boom. split; [reflexivity | lia].
  - reflexivity.
  - simpl. lia.
  - simpl. lia.
  - reflexivity.
Defined.

(** X16. With [retries <= 0] (zero or negative) [retryRequest] calls [fn]
    exactly once, without any pause, and ends as that call does: with its
    value, with its error, or not at all. *)
Theorem retryRequest_without_retries
    (A : Type) (fn : callable A) (n : Z) (w : world) :
  n <= 0 ->
  retryRequest fn n w =
    (settled (fn (invocations w)),
     {| now := now w + duration (fn (invocations w));
        dependencyFailures := dependencyFailures w;
        circuitOpenUntil := circuitOpenUntil w;
        invocations := S (invocations w);
        out := out w ++ [Called] |}).
Proof.
  intros Hn. apply retry_stop. left. exact Hn.
Qed.

Lemma retryRequest_without_retries_witness :
  retryRequest (Demo.flaky 20) (-3) Demo.strained =
    (Thrown Demo.boom,
     {| now := 1030; dependencyFailures := 4; circuitOpenUntil := None;
        invocations := 13; out := [Called] |}).
Proof.
  apply (retryRequest_without_retries jsval (Demo.flaky 20) (-3) Demo.strained).
  lia.
Defined.

(** X17. The health check reports [dependencyCircuitOpen] as [null], not
    [false], while the circuit has never been opened or since the last
    success; once a failure has opened it, as [true] during the cooldown
    and [false] after it.  In every case the value is truthy exactly when
    [callDependency] treats the circuit as open. *)
Theorem health_check_circuit_field (uptime memory cpu : jsval) (w : world) :
  get "dependencyCircuitOpen" (health_check uptime memory cpu w)
  = isCircuitOpen_value w /\
  js_truthy (isCircuitOpen_value w) = circuit_open w /\
  (circuitOpenUntil w = None -> isCircuitOpen_value w = VNull) /\
  isCircuitOpen_value (snd (recordSuccess w)) = VNull /\
  (forall until,
      circuitOpenUntil w = Some until -> until <> 0 ->
      isCircuitOpen_value w = VBool (now w <? until)).
Proof.
  unfold isCircuitOpen_value, circuit_open, truthy. cbn [js_truthy].
  split; [reflexivity |]. split; [| split; [| split]].
  - destruct (circuitOpenUntil w) as [until |]; [| reflexivity].
    destruct (until =? 0) eqn:Hzero; cbn; rewrite ?Hzero; reflexivity.
  - intros ->. reflexivity.
  - reflexivity.
  - intros u -> Hnz. apply Z.eqb_neq in Hnz. rewrite Hnz. reflexivity.
Qed.

Lemma health_check_circuit_field_witness :
  isCircuitOpen_value Samples.fresh = VNull /\
  isCircuitOpen_value Samples.cooled = VBool false.
Proof.
  destruct (health_check_circuit_field VNull VNull VNull Samples.fresh)
    as (_ & _ & Hnull & _).
  destruct (health_check_circuit_field VNull VNull VNull Samples.cooled)
    as (_ & _ & _ & _ & Hbool).
  split.
  - apply Hnull. reflexivity.
  - apply (Hbool 61000); [reflexivity | lia].
Defined.


Lemma at_last (fl : list Overlap.call) c :
  nth_error (fl ++ [c]) (List.length fl) = Some c /\
  forall c', Overlap.place (List.length fl) c' (fl ++ [c]) = fl ++ [c'].
Proof.
  split; [apply (place_middle fl c c []) |].
  intros c'. apply (place_middle fl c c' []).
Qed.

(** The steps of the call made last. *)
Lemma reply_last fl c w answer :
  Overlap.reply_to (List.length fl) answer
    {| Overlap.shared := w; Overlap.flight := fl ++ [c] |} =
  match Overlap.stands c, answer with
  | Overlap.Requesting _, inl resp =>
      {| Overlap.shared := snd (recordSuccess w);
         Overlap.flight :=
           fl ++ [Overlap.moved c (Overlap.Returned (data resp))] |}
  | Overlap.Requesting retries, inr err =>
      if retries <=? 0 then
        {| Overlap.shared :=
             snd (emit (failure_line (Overlap.target c) err)
                    (snd (recordFailure w)));
           Overlap.flight :=
             fl ++ [Overlap.moved c (Overlap.Returned (Overlap.fallback c))] |}
      else
        {| Overlap.shared := w;
           Overlap.flight :=
             fl ++ [Overlap.moved c (Overlap.Pausing retries (now w + 500))] |}
  | _, _ => {| Overlap.shared := w; Overlap.flight := fl ++ [c] |}
  end.
Proof.
  unfold Overlap.reply_to. cbn [Overlap.flight Overlap.shared].
  destruct (at_last fl c) as [Hn Hp]. rewrite Hn.
  destruct (Overlap.stands c) as [retries | retries resume_at | v],
    answer as [resp | err];
    rewrite ?Hp; try reflexivity.
  destruct (retries <=? 0); [| reflexivity].
  unfold bind, failure_line. rewrite !recordFailure_spec. reflexivity.
Qed.

Lemma resume_last fl c w :
  Overlap.resume (List.length fl)
    {| Overlap.shared := w; Overlap.flight := fl ++ [c] |} =
  match Overlap.stands c with
  | Overlap.Pausing retries resume_at =>
      if resume_at <=? now w then
        {| Overlap.shared := Overlap.send (snd (emit (Waited 500) w));
           Overlap.flight :=
             fl ++ [Overlap.moved c (Overlap.Requesting (retries - 1))] |}
      else {| Overlap.shared := w; Overlap.flight := fl ++ [c] |}
  | _ => {| Overlap.shared := w; Overlap.flight := fl ++ [c] |}
  end.
Proof.
  unfold Overlap.resume. cbn [Overlap.flight Overlap.shared].
  destruct (at_last fl c) as [Hn Hp]. rewrite Hn.
  destruct (Overlap.stands c) as [retries | retries resume_at | v];
    try reflexivity.
  destruct (resume_at <=? now w); rewrite ?Hp; reflexivity.
Qed.

(** A call whose request has left, run to its end with nothing in
    between, does to the variables of the module what [retryRequest] and
    the rest of [callDependency] do. *)
Lemma answers_agree request cfg fb fl n :
  forall w,
    let c := fun st => {| Overlap.target := cfg; Overlap.fallback := fb;
                          Overlap.stands := st |} in
    let s' :=
      Overlap.exec_all
        (Overlap.answers request cfg (List.length fl) n (invocations w))
        {| Overlap.shared := Overlap.send w;
           Overlap.flight := fl ++ [c (Overlap.Requesting (Z.of_nat n))] |} in
    match retryRequest (request cfg) (Z.of_nat n) w with
    | (Normal resp, w') =>
        s' = {| Overlap.shared := snd (recordSuccess w');
                Overlap.flight := fl ++ [c (Overlap.Returned (data resp))] |}
    | (Thrown e, w') =>
        s' = {| Overlap.shared :=
                  snd (emit (failure_line cfg e) (snd (recordFailure w')));
                Overlap.flight := fl ++ [c (Overlap.Returned fb)] |}
    | (Stuck, w') =>
        Overlap.shared s' = w' /\
        exists k, Overlap.flight s' = fl ++ [c (Overlap.Requesting k)]
    end.
Proof.
  induction n as [| n IH]; intros w; cbv zeta.
  - rewrite (retry_stop response (request cfg) (Z.of_nat 0) w ltac:(left; cbn; lia)).
    cbn [Overlap.answers].
    destruct (request cfg (invocations w)) as [ms resp | ms e |];
      cbn [settled duration Overlap.exec_all fold_left Overlap.exec
           Overlap.shared Overlap.flight];
      rewrite ?reply_last;
      cbn [Overlap.stands Z.of_nat Z.leb Z.compare Overlap.moved Overlap.target
           Overlap.fallback].
    + reflexivity.
    + reflexivity.
    + split; [| eexists; reflexivity].
      unfold Overlap.send. rewrite Z.add_0_r. reflexivity.
  - cbn [Overlap.answers].
    destruct (request cfg (invocations w)) as [ms resp | ms e |] eqn:Hfn.
    + rewrite (retry_resolves response (request cfg) _ w ms resp Hfn).
      cbn [Overlap.exec_all fold_left Overlap.exec Overlap.shared Overlap.flight].
      rewrite reply_last. reflexivity.
    + rewrite (retry_go response (request cfg) (Z.of_nat (S n)) w ms e
                 ltac:(lia) Hfn).
      replace (Z.of_nat (S n) - 1) with (Z.of_nat n) by lia.
      specialize (IH {| now := now w + ms + 500;
                        dependencyFailures := dependencyFailures w;
                        circuitOpenUntil := circuitOpenUntil w;
                        invocations := S (invocations w);
                        out := out w ++ [Called; Waited 500] |}).
      cbv zeta in IH. cbn [invocations] in IH.
      assert (Hsteps :
                Overlap.exec (Overlap.Resume (List.length fl))
                  (Overlap.exec (Overlap.Tick 500)
                     (Overlap.exec (Overlap.Reply (List.length fl) (inr e))
                        (Overlap.exec (Overlap.Tick ms)
                           {| Overlap.shared := Overlap.send w;
                              Overlap.flight :=
                                fl ++ [{| Overlap.target := cfg;
                                          Overlap.fallback := fb;
                                          Overlap.stands :=
                                            Overlap.Requesting (Z.of_nat (S n)) |}]
                           |})))
                = {| Overlap.shared :=
                       Overlap.send
                         {| now := now w + ms + 500;
                            dependencyFailures := dependencyFailures w;
                            circuitOpenUntil := circuitOpenUntil w;
                            invocations := S (invocations w);
                            out := out w ++ [Called; Waited 500] |};
                     Overlap.flight :=
                       fl ++ [{| Overlap.target := cfg;
                                 Overlap.fallback := fb;
                                 Overlap.stands :=
                                   Overlap.Requesting (Z.of_nat n) |}] |}).
      { cbn [Overlap.exec Overlap.shared Overlap.flight].
        rewrite reply_last. cbn [Overlap.stands].
        destruct (Z.leb_spec (Z.of_nat (S n)) 0); [lia |].
        cbn [Overlap.exec Overlap.shared Overlap.flight].
        rewrite resume_last. cbn [Overlap.stands Overlap.moved].
        destruct (Z.leb_spec (now (advance ms (Overlap.send w)) + 500)
                    (now (advance 500 (advance ms (Overlap.send w)))))
          as [_ | Hlate]; [| cbn [advance now Overlap.send] in Hlate; lia].
        replace (Z.of_nat (S n) - 1) with (Z.of_nat n) by lia.
        unfold Overlap.send, advance, emit, modify.
        cbn [snd now dependencyFailures circuitOpenUntil invocations out
             Overlap.target Overlap.fallback].
        rewrite <- !app_assoc. reflexivity. }
      unfold Overlap.exec_all in *. cbn [fold_left]. rewrite Hsteps. exact IH.
    + rewrite (retry_stop response (request cfg) (Z.of_nat (S n)) w).
      * rewrite Hfn. cbn [settled duration Overlap.exec_all fold_left
                          Overlap.shared Overlap.flight].
        split; [| eexists; reflexivity].
        unfold Overlap.send. rewrite Z.add_0_r. reflexivity.
      * right. intros (ms & e & H). congruence.
Qed.

(** X25. A call of [callDependency] during which nothing else happens is
    the call taken one asynchronous step at a time: running its steps in
    the model of calls in flight together, with the replies and pauses
    that [request] gives, leaves the variables of the module, the clock
    and the log exactly as [callDependency] leaves them, and the call
    stands returned with the value that [callDependency] returns (or
    keeps awaiting a reply that never comes). *)
Theorem callDependency_alone
    (request : config -> callable response) (cfg : config) (arg : jsval)
    (s : Overlap.server) :
  Overlap.shared (Overlap.exec_all (Overlap.alone request cfg arg s) s)
  = snd (callDependency request cfg arg (Overlap.shared s)) /\
  match fst (callDependency request cfg arg (Overlap.shared s)) with
  | Normal v =>
      Overlap.stages (Overlap.exec_all (Overlap.alone request cfg arg s) s)
      = Overlap.stages s ++ [Overlap.Returned v]
  | Thrown _ => False
  | Stuck =>
      exists k,
        Overlap.stages (Overlap.exec_all (Overlap.alone request cfg arg s) s)
        = Overlap.stages s ++ [Overlap.Requesting k]
  end.
Proof.
  unfold Overlap.alone, Overlap.stages.
  destruct (circuit_open (Overlap.shared s)) eqn:Hopen.
  - rewrite (callDependency_open request cfg arg _ Hopen).
    cbn [Overlap.exec_all fold_left Overlap.exec].
    rewrite (enter_open cfg arg s Hopen).
    cbn [Overlap.shared Overlap.flight fst snd]. rewrite map_app.
    split; reflexivity.
  - change (Overlap.exec_all (Overlap.Enter cfg arg :: ?rest) s)
      with (Overlap.exec_all rest (Overlap.enter cfg arg s)).
    unfold Overlap.enter. rewrite Hopen.
    pose proof (answers_agree request cfg (default_param arg VNull)
                  (Overlap.flight s) 2 (Overlap.shared s)) as Hsteps.
    cbv zeta in Hsteps.
    unfold callDependency, bind, isCircuitOpen, gets, try_catch.
    rewrite Hopen.
    change (Z.of_nat 2) with 2 in Hsteps.
    destruct (retryRequest (request cfg) 2 (Overlap.shared s))
      as [[resp | e |] w'].
    + rewrite Hsteps. cbn [Overlap.shared Overlap.flight fst snd].
      rewrite map_app. split; reflexivity.
    + rewrite Hsteps. rewrite recordFailure_spec.
      cbn [Overlap.shared Overlap.flight fst snd]. rewrite map_app.
      unfold failure_line, emit, modify, ret.
      destruct (dependencyFailures w' + 1 >=? 5); cbn; split; reflexivity.
    + destruct Hsteps as [Hshared (k & Hflight)].
      cbn [fst snd]. split; [exact Hshared |].
      exists k. rewrite Hflight, map_app. reflexivity.
Qed.

End ServerMore.
(** * Properties of the rest of the bootstrap *)

Module BootstrapFacts.
Import Server ServerObs Bootstrap.

Lemma getHeader_setHeader_same name value hs :
  getHeader name (setHeader name value hs) = Some value.
Proof.
  assert (Hrefl : same_name name name = true) by apply String.eqb_refl.
  induction hs as [| [k v] hs IH]; cbn.
  - rewrite Hrefl. reflexivity.
  - destruct (same_name k name) eqn:Hk; cbn.
    + rewrite Hrefl. reflexivity.
    + rewrite Hk. exact IH.
Qed.

Lemma getHeader_setHeader_other name other value hs :
  same_name other name = false ->
  getHeader other (setHeader name value hs) = getHeader other hs.
Proof.
  unfold same_name. intros Hne. apply String.eqb_neq in Hne.
  induction hs as [| [k v] hs IH]; cbn; unfold same_name.
  - destruct (String.eqb_spec (lower name) (lower other)); [congruence | reflexivity].
  - destruct (String.eqb_spec (lower k) (lower name)) as [Hk | Hk]; cbn;
      unfold same_name.
    + rewrite Hk.
      destruct (String.eqb_spec (lower name) (lower other)); [congruence | reflexivity].
    + destruct (String.eqb (lower k) (lower other)); [reflexivity | exact IH].
Qed.

(** X18. The versioning middleware always calls [next()], leaves the
    request headers as they are, sets [req.apiVersion] and the response
    header [X-API-Version] to the same, never empty, version, and changes no
    other response header.  The version is the request header
    [x-api-version] when that is present and not empty, and ["v1"]
    otherwise. *)
Theorem api_versioning_spec (rq : req) (rs : res) :
  exists version,
    api_versioning rq rs
    = ({| req_headers := req_headers rq; apiVersion := Some version |},
       {| res_headers := setHeader "X-API-Version" version (res_headers rs) |},
       true) /\
    getHeader "X-API-Version"
      (res_headers (snd (fst (api_versioning rq rs)))) = Some version /\
    version <> "" /\
    (header "x-api-version" (req_headers rq) = None -> version = "v1") /\
    (header "x-api-version" (req_headers rq) = Some "" -> version = "v1") /\
    (forall s, header "x-api-version" (req_headers rq) = Some s ->
               s <> "" -> version = s) /\
    (forall other,
        same_name other "X-API-Version" = false ->
        getHeader other (res_headers (snd (fst (api_versioning rq rs))))
        = getHeader other (res_headers rs)).
Proof.
  exists (or_else (header "x-api-version" (req_headers rq)) "v1").
  unfold api_versioning. cbn [fst snd res_headers].
  split; [reflexivity |]. split; [apply getHeader_setHeader_same |].
  split; [| split; [| split; [| split]]].
  - unfold or_else. destruct (header "x-api-version" (req_headers rq)) as [s |].
    + destruct (String.eqb_spec s ""); [discriminate | assumption].
    + discriminate.
  - intros ->. reflexivity.
  - intros ->. reflexivity.
  - intros s -> Hs. unfold or_else.
    destruct (String.eqb_spec s ""); [contradiction | reflexivity].
  - intros other Hother. apply getHeader_setHeader_other. exact Hother.
Qed.

Lemma api_versioning_spec_witness :
  exists version,
    getHeader "x-api-version"
      (res_headers
         (snd (fst (api_versioning
                      {| req_headers := [("accept", "*/*"); ("x-api-version", "v2")];
                         apiVersion := None |}
                      {| res_headers := [("x-api-version", "v0")] |}))))
    = Some version /\
    version = "v2".
Proof.
  destruct (api_versioning_spec
              {| req_headers := [("accept", "*/*"); ("x-api-version", "v2")];
                 apiVersion := None |}
              {| res_headers := [("x-api-version", "v0")] |})
    as (version & _ & Hset & _ & _ & _ & Hecho & _).
  exists version. split; [exact Hset |].
  apply (Hecho "v2"); [reflexivity | discriminate].
Defined.

(** X19. [connectDB] never throws.  In the test environment it does
    nothing at all: [initDB] is not called and no setting is made.
    Otherwise it calls [initDB] once and, when that settles, always leaves
    the setting ['dbConnection'] made: the connection when [initDB]
    resolves, the file fallback [{ useMongoDB: false, mongoose: null }]
    when it rejects. *)
Theorem connectDB_spec (node_env : option string) (initDB : reply jsval) (a : app) :
  (forall e, fst (connectDB node_env initDB a) <> Thrown e) /\
  (is_test node_env = true -> connectDB node_env initDB a = (Normal tt, a)) /\
  (is_test node_env = false ->
   initDB_calls (snd (connectDB node_env initDB a)) = S (initDB_calls a) /\
   (forall ms connection,
       initDB = Resolves ms connection ->
       fst (connectDB node_env initDB a) = Normal tt /\
       setting_dbConnection (snd (connectDB node_env initDB a)) = Some connection) /\
   (forall ms e,
       initDB = Rejects ms e ->
       fst (connectDB node_env initDB a) = Normal tt /\
       setting_dbConnection (snd (connectDB node_env initDB a))
       = Some file_fallback)).
Proof.
  unfold connectDB, try_catch, bind, call_initDB, app_set_dbConnection, write,
    modify, ret.
  destruct (is_test node_env).
  - split; [discriminate |]. split; [reflexivity | discriminate].
  - split; [| split; [discriminate |]].
    + destruct initDB; cbn; discriminate.
    + intros _. split; [destruct initDB; reflexivity |]. split.
      * intros ms connection ->. split; reflexivity.
      * intros ms e ->. repeat split.
Qed.

Lemma connectDB_spec_witness :
  connectDB (Some "test") (Rejects 5 Demo.boom) BootSamples.cold
  = (Normal tt, BootSamples.cold) /\
  setting_dbConnection
    (snd (connectDB (Some "production") (Rejects 5 Demo.boom) BootSamples.cold))
  = Some file_fallback.
Proof.
  destruct (connectDB_spec (Some "test") (Rejects 5 Demo.boom) BootSamples.cold)
    as (_ & Htest & _).
  destruct (connectDB_spec (Some "production") (Rejects 5 Demo.boom) BootSamples.cold)
    as (_ & _ & Hprod).
  split.
  - apply Htest. reflexivity.
  - destruct (Hprod eq_refl) as (_ & _ & Hrej).
    apply (Hrej 5 Demo.boom eq_refl).
Defined.

(** X20. [startServer] starts listening whether [initDB] resolves or
    rejects: a rejection is logged and leaves [dbConnection] null, and the
    same seven routes under [/api] are mounted either way, in the same
    order, with the not-found and the error handler after all of them.
    When [initDB] never settles, nothing is mounted and the server never
    listens. *)
Theorem startServer_spec (port : Z) (initDB : reply jsval) (a : app) :
  (initDB <> Hangs ->
   fst (startServer port initDB a) = Normal tt /\
   listening (snd (startServer port initDB a)) = Some port /\
   dbConnection (snd (startServer port initDB a))
   = match initDB with
     | Resolves _ connection => connection
     | _ => VNull
     end /\
   stack (snd (startServer port initDB a))
   = stack a
     ++ [(Some "/api/auth", ["authLimiter"; "./routes/auth"]);
         (Some "/api/users", ["./routes/users"]);
         (Some "/api/resume", ["resumeRoutes"]);
         (Some "/api/upload", ["uploadRoutes"]);
         (Some "/api/messages", ["./routes/messages"]);
         (Some "/api/account", ["./routes/account"]);
         (Some "/api/notifications", ["./routes/notifications"]);
         (None, ["notFound"]);
         (None, ["errorHandler"])] /\
   log (snd (startServer port initDB a))
   = log a
     ++ [match initDB with
         | Rejects _ e => Critical "Database initialization failed" (message e)
         | _ => Info "Database initialized successfully"
         end;
         Running port]) /\
  (initDB = Hangs ->
   fst (startServer port initDB a) = Stuck /\
   listening (snd (startServer port initDB a)) = listening a /\
   stack (snd (startServer port initDB a)) = stack a).
Proof.
  split.
  - intros Hsettles.
    destruct initDB as [ms connection | ms e |]; [| | contradiction]; cbn;
      rewrite <- !app_assoc; cbn [List.app]; repeat split.
  - intros ->. cbn. repeat split.
Qed.

Lemma startServer_spec_witness :
  fst (startServer 5000 (Rejects 5 Demo.boom) BootSamples.cold) = Normal tt /\
  listening (snd (startServer 5000 (Rejects 5 Demo.boom) BootSamples.cold))
  = Some 5000 /\
  dbConnection (snd (startServer 5000 (Rejects 5 Demo.boom) BootSamples.cold))
  = VNull.
Proof.
  destruct (startServer_spec 5000 (Rejects 5 Demo.boom) BootSamples.cold)
    as [Hsettled _].
  destruct Hsettled as (Hres & Hlisten & Hdb & _); [discriminate |].
  repeat split; assumption.
Defined.

(** What the callback of [server.close] does. *)
Lemma on_closed_spec connection db_close p :
  on_closed connection db_close p =
  if js_truthy (optional_get "mongoose" connection) then
    match db_close with
    | Resolves ms _ =>
        (Normal tt, {| clock := clock p + ms; exit_code := Some 0; plog := plog p |})
    | Rejects ms e =>
        (Thrown e, {| clock := clock p + ms; exit_code := exit_code p; plog := plog p |})
    | Hangs =>
        (Stuck, {| clock := clock p + 0; exit_code := exit_code p; plog := plog p |})
    end
  else (Normal tt, {| clock := clock p; exit_code := Some 0; plog := plog p |}).
Proof.
  unfold on_closed, bind, close_connection, process_exit, modify, ret, pass.
  destruct (js_truthy (optional_get "mongoose" connection)); [| reflexivity].
  destruct db_close; reflexivity.
Qed.

Lemma shutdown_cases signal connection drain db_close p :
  let p' := shutdown signal connection drain db_close p in
  ((exit_code p' = Some 0 /\ clock p' < clock p + 10000) \/
   (exit_code p' = Some 1 /\ clock p' = clock p + 10000)) /\
  In (ShutdownSignal signal) (plog p').
Proof.
  cbv zeta. unfold shutdown.
  assert (Hforced :
            forall q, clock q = clock p -> In (ShutdownSignal signal) (plog q) ->
                      ((exit_code (forced q) = Some 0 /\
                        clock (forced q) < clock p + 10000) \/
                       (exit_code (forced q) = Some 1 /\
                        clock (forced q) = clock p + 10000)) /\
                      In (ShutdownSignal signal) (plog (forced q))).
  { intros q Hq Hin. cbn. split; [right; split; [reflexivity | lia] | exact Hin]. }
  assert (Hnoted : In (ShutdownSignal signal) (plog (note (ShutdownSignal signal) p)))
    by (cbn; rewrite in_app_iff; right; left; reflexivity).
  destruct drain as [d |]; [| apply Hforced; [reflexivity | exact Hnoted]].
  destruct (d <? 10000); [| apply Hforced; [reflexivity | exact Hnoted]].
  rewrite on_closed_spec.
  destruct (js_truthy (optional_get "mongoose" connection)).
  - destruct db_close as [ms [] | ms e |].
    + destruct (Z.ltb_spec
                  (clock {| clock := clock (pass d (note (ShutdownSignal signal) p)) + ms;
                            exit_code := Some 0;
                            plog := plog (pass d (note (ShutdownSignal signal) p)) |})
                  (clock (note (ShutdownSignal signal) p) + 10000)) as [Hlt | Hge];
        [| apply Hforced; [reflexivity | exact Hnoted]].
      cbn in *. split; [left; split; [reflexivity | lia] | exact Hnoted].
    + match goal with
      | |- context [if ?c then _ else _] => destruct c
      end; apply Hforced; try reflexivity; try exact Hnoted.
      cbn. rewrite !in_app_iff. left. right. left. reflexivity.
    + apply Hforced; [reflexivity | exact Hnoted].
  - destruct (Z.ltb_spec
                (clock {| clock := clock (pass d (note (ShutdownSignal signal) p));
                          exit_code := Some 0;
                          plog := plog (pass d (note (ShutdownSignal signal) p)) |})
                (clock (note (ShutdownSignal signal) p) + 10000)) as [Hlt | Hge];
      [| apply Hforced; [reflexivity | exact Hnoted]].
    cbn in *. split; [left; split; [reflexivity | lia] | exact Hnoted].
Qed.

(** X21. After a shutdown signal the process always exits, with code 0 or
    1 and no later than 10 s after the signal, whatever the server and the
    database connection do; an exit with code 1 comes exactly at the 10 s,
    and the signal is always logged. *)
Theorem shutdown_always_exits
    (signal : string) (connection : jsval) (drain : option Z)
    (db_close : reply unit) (p : proc) :
  let p' := shutdown signal connection drain db_close p in
  (exit_code p' = Some 0 \/ exit_code p' = Some 1) /\
  clock p' <= clock p + 10000 /\
  (exit_code p' = Some 1 -> clock p' = clock p + 10000) /\
  In (ShutdownSignal signal) (plog p').
Proof.
  cbv zeta.
  destruct (shutdown_cases signal connection drain db_close p) as [Hcases Hlog].
  cbv zeta in Hcases, Hlog.
  destruct Hcases as [[Hcode Hclock] | [Hcode Hclock]]; rewrite Hcode.
  - repeat split; [left; reflexivity | lia | discriminate | exact Hlog].
  - repeat split; [right; reflexivity | lia | intros _; exact Hclock | exact Hlog].
Qed.

Lemma shutdown_always_exits_witness :
  exit_code (shutdown "SIGINT" BootSamples.mongo None Hangs BootSamples.running)
  = Some 1 /\
  clock (shutdown "SIGINT" BootSamples.mongo None Hangs BootSamples.running)
  = clock BootSamples.running + 10000.
Proof.
  destruct (shutdown_always_exits "SIGINT" BootSamples.mongo None Hangs
              BootSamples.running) as (_ & _ & Hone & _).
  split; [reflexivity | apply Hone; reflexivity].
Defined.

(** X22. The process exits with code 0 exactly when the server has closed
    its connections in less than 10 s and either there is no mongoose
    connection to close ([dbConnection] is null, or its [mongoose] is) or
    closing it has succeeded, still in less than 10 s after the signal.  In
    particular a rejected or hanging close of the database connection ends
    in exit code 1. *)
Theorem shutdown_graceful
    (signal : string) (connection : jsval) (drain : option Z)
    (db_close : reply unit) (p : proc) :
  exit_code (shutdown signal connection drain db_close p) = Some 0 <->
  exists d,
    drain = Some d /\ d < 10000 /\
    (js_truthy (optional_get "mongoose" connection) = false \/
     exists ms, db_close = Resolves ms tt /\ d + ms < 10000).
Proof.
  unfold shutdown.
  destruct drain as [d |].
  2: { cbn. split; [discriminate | intros (d & H & _); discriminate H]. }
  destruct (Z.ltb_spec d 10000) as [Hd | Hd].
  2: { cbn. split; [discriminate |].
       intros (d' & H & Hlt & _). injection H as <-. lia. }
  rewrite on_closed_spec.
  destruct (js_truthy (optional_get "mongoose" connection)).
  - destruct db_close as [ms [] | ms e |];
      cbn [clock pass note exit_code plog forced].
    + destruct (Z.ltb_spec (clock p + d + ms) (clock p + 10000)) as [Hin | Hout];
        cbn [exit_code forced].
      * split; [intros _ | reflexivity].
        exists d. repeat split; try assumption.
        right. exists ms. split; [reflexivity | lia].
      * split; [discriminate |].
        intros (d' & Hd' & _ & [Hno | (ms' & Hms & Hlt)]); [discriminate Hno |].
        injection Hd' as <-. injection Hms as <-. lia.
    + destruct (clock p + d + ms <? clock p + 10000); cbn [exit_code forced];
        (split; [discriminate |]);
        intros (d' & _ & _ & [Hno | (ms' & Hms & _)]); discriminate.
    + cbn. split; [discriminate |].
      intros (d' & _ & _ & [Hno | (ms' & Hms & _)]); discriminate.
  - cbn [clock pass note exit_code plog forced].
    destruct (Z.ltb_spec (clock p + d) (clock p + 10000)) as [Hin | Hout]; [| lia].
    cbn [exit_code]. split; [intros _ | reflexivity].
    exists d. repeat split; try assumption. left. reflexivity.
Qed.

Lemma shutdown_graceful_witness :
  exit_code (shutdown "SIGTERM" BootSamples.mongo (Some 2000) (Resolves 300 tt)
               BootSamples.running) = Some 0 /\
  exit_code (shutdown "SIGTERM" BootSamples.mongo (Some 2000)
               (Rejects 300 Demo.boom) BootSamples.running) <> Some 0.
Proof.
  split.
  - apply (shutdown_graceful "SIGTERM" BootSamples.mongo (Some 2000)
             (Resolves 300 tt) BootSamples.running).
    exists 2000. split; [reflexivity |]. split; [lia |].
    right. exists 300. split; [reflexivity | lia].
  - intros H.
    apply (shutdown_graceful "SIGTERM" BootSamples.mongo (Some 2000)
             (Rejects 300 Demo.boom) BootSamples.running) in H.
    destruct H as (d & _ & _ & [Hno | (ms & Hms & _)]); discriminate.
Defined.

End BootstrapFacts.

(** * Properties of the state of the App component *)

Module AppFacts.
Import App.

Lemma own_assign_same key value m :
  own key (assign key value m) = Some value.
Proof.
  induction m as [| [k v] m IH]; cbn.
  - rewrite String.eqb_refl. reflexivity.
  - destruct (String.eqb k key) eqn:Hk; cbn; rewrite Hk; [reflexivity | exact IH].
Qed.

Lemma own_assign_other key other value m :
  other <> key ->
  own other (assign key value m) = own other m.
Proof.
  intros Hne. induction m as [| [k v] m IH]; cbn.
  - destruct (String.eqb_spec key other); [congruence | reflexivity].
  - destruct (String.eqb_spec k key) as [-> | Hk]; cbn.
    + destruct (String.eqb_spec key other); [congruence | reflexivity].
    + destruct (String.eqb k other); [reflexivity | exact IH].
Qed.

Lemma keys_assign key value m :
  map fst (assign key value m)
  = match own key m with
    | Some _ => map fst m
    | None => map fst m ++ [key]
    end.
Proof.
  induction m as [| [k v] m IH]; cbn; [reflexivity |].
  destruct (String.eqb k key); cbn; [reflexivity |].
  rewrite IH. destruct (own key m); reflexivity.
Qed.

Lemma own_none_not_in key m : own key m = None -> ~ In key (map fst m).
Proof.
  induction m as [| [k v] m IH]; cbn; [tauto |].
  destruct (String.eqb_spec k key); [discriminate |].
  intros H [Hk | Hin]; [contradiction | exact (IH H Hin)].
Qed.

(** X23. [toggleLike(postId)] flips whether that post is shown as liked
    and leaves every other key as it was; toggling twice restores the
    liked state of every post (the post then has an own entry where it had
    none); and no post ever gets two entries.  A post never toggled counts
    as not liked, so its first toggle likes it, unless its id is a name
    that every object inherits, such as [toString]: such a post counts as
    liked from the start, and its first toggle stores [false]. *)
Theorem toggleLike_spec (postId : string) (m : liked_map) :
  liked postId (toggleLike postId m) = negb (liked postId m) /\
  (forall other, other <> postId ->
                 get other (toggleLike postId m) = get other m) /\
  (forall any, liked any (toggleLike postId (toggleLike postId m)) = liked any m) /\
  (own postId m = None ->
   own postId (toggleLike postId m) = Some (negb (inherited postId)) /\
   own postId (toggleLike postId (toggleLike postId m))
   = Some (inherited postId)) /\
  (NoDup (map fst m) -> NoDup (map fst (toggleLike postId m))).
Proof.
  unfold toggleLike, liked, get.
  split; [| split; [| split; [| split]]].
  - rewrite own_assign_same. cbn [truthy]. reflexivity.
  - intros other Hne. rewrite own_assign_other by exact Hne. reflexivity.
  - intros any. destruct (String.eqb_spec any postId) as [-> | Hne].
    + rewrite !own_assign_same. cbn [truthy]. apply negb_involutive.
    + rewrite !own_assign_other by exact Hne. reflexivity.
  - intros Hnone. rewrite !own_assign_same, Hnone. cbn [truthy].
    destruct (inherited postId); split; reflexivity.
  - intros Hnodup. rewrite keys_assign.
    destruct (own postId m) eqn:Hl; [exact Hnodup |].
    apply NoDup_app; [exact Hnodup | repeat constructor; intros [] |].
    intros k Hin [<- | []]. exact (own_none_not_in _ _ Hl Hin).
Qed.

Lemma toggleLike_spec_witness :
  get "2" (toggleLike "1" [("2", true)]) = get "2" [("2", true)] /\
  own "1" (toggleLike "1" [("2", true)]) = Some true /\
  own "1" (toggleLike "1" (toggleLike "1" [("2", true)])) = Some false /\
  own "toString" (toggleLike "toString" []) = Some false /\
  NoDup (map fst (toggleLike "1" [("2", true)])).
Proof.
  destruct (toggleLike_spec "1" [("2", true)])
    as (_ & Hother & _ & Hfirst & Hkeys).
  destruct (toggleLike_spec "toString" []) as (_ & _ & _ & Hproto & _).
  split; [apply Hother; discriminate |].
  split; [apply (Hfirst eq_refl) |].
  split; [apply (Hfirst eq_refl) |].
  split; [apply (Hproto eq_refl) |].
  apply Hkeys. repeat constructor. intros [].
Defined.

Lemma next_story_mod len i :
  0 < len -> 0 <= i -> next_story len i = (i + 1) mod len.
Proof.
  intros Hlen Hi. unfold next_story. apply Z.rem_mod_nonneg; lia.
Qed.

Lemma iter_next_story len k :
  0 < len ->
  forall i, 0 <= i < len ->
            Nat.iter k (next_story len) i = (i + Z.of_nat k) mod len.
Proof.
  intros Hlen. induction k as [| k IH]; intros i Hi.
  - cbn [Nat.iter]. rewrite Z.add_0_r, Z.mod_small; [reflexivity | exact Hi].
  - rewrite Nat.iter_succ, IH by exact Hi.
    rewrite next_story_mod; [| exact Hlen | apply Z.mod_pos_bound; exact Hlen].
    rewrite Z.add_mod_idemp_l by lia. f_equal. lia.
Qed.

(** X24. The story timer keeps the index of the current story within the
    stories: from an index in range the next one is in range, it is the
    following story or the first one after the last, and after as many
    ticks as there are stories (seven in the component) the same story is
    shown again. *)
Theorem story_rotation (len i : Z) :
  0 < len ->
  0 <= i < len ->
  0 <= next_story len i < len /\
  next_story len i = (if i =? len - 1 then 0 else i + 1) /\
  Nat.iter (Z.to_nat len) (next_story len) i = i.
Proof.
  intros Hlen Hi. rewrite (next_story_mod len i Hlen ltac:(lia)).
  split; [apply Z.mod_pos_bound; exact Hlen |]. split.
  - destruct (Z.eqb_spec i (len - 1)) as [-> | Hne].
    + replace (len - 1 + 1) with len by lia. apply Z.mod_same. lia.
    + apply Z.mod_small. lia.
  - rewrite (iter_next_story len (Z.to_nat len) Hlen i Hi).
    rewrite Z2Nat.id by lia.
    rewrite <- (Z.mul_1_l len) at 1. rewrite Z.mod_add by lia.
    apply Z.mod_small. exact Hi.
Qed.

Lemma story_rotation_witness :
  0 <= next_story stories_length 6 < stories_length /\
  next_story stories_length 6 = 0 /\
  Nat.iter (Z.to_nat stories_length) (next_story stories_length) 6 = 6.
Proof.
  apply (story_rotation stories_length 6); unfold stories_length; lia.
Defined.

End AppFacts.
